(** * pcap-ffxiv: the capture pipeline of [CaptureInterface]

    A shallow embedding of [src/pcap-ffxiv.ts] (the class [CaptureInterface]:
    opcode cache, frame reassembly loop, frame processor, ready event) and of
    the registry built by [src/packet-processors/load-packet-processors.ts].

    Conventions.
    - A Node [Buffer] is a [list byte]; [buf.slice(n)] is [drop n].
    - A JavaScript string that the code indexes or looks up by (an opcode
      name, a message name) is its list of UTF-16 code units; strings that
      are only passed on or compared (addresses, regions) are [string].
    - Unsigned wire fields ([size], [segmentCount], opcodes, ports) are [N];
      the one signed quantity, the argument of [roundToNextPowerOf2], is [Z].
    - [this.emit(name, ...)] appends to an event log.  A JavaScript exception
      is the outcome [Thrown]; the events emitted before it stay in the log.
      Listeners are taken to return normally and not to call back into the
      instance while a frame is being processed.
    - The modules imported by the class but outside the modelled sources
      (./frame-processing, ./constants, ./memory, pako, the decoder bodies)
      are interfaces: type classes whose fields are the imported names.  So
      are the built-ins of the language that the code reaches and that are
      tables or native code: case mapping outside ASCII and the members of
      [Object.prototype]. *)

From Stdlib Require Import ZArith NArith Ascii String List Sorted Lia.
From Stdlib.Strings Require Import Byte.
From stdpp Require Import base option list strings gmap.

Local Open Scope N_scope.

(** ** Buffers *)

Definition Buffer := list byte.

(** [buf.slice(start)] for a non-negative [start]: the bytes from [start] on,
    empty when [start] is past the end. *)
Definition Buffer_slice (buf : Buffer) (start : N) : Buffer :=
  drop (N.to_nat start) buf.

Definition Buffer_length (buf : Buffer) : N := N.of_nat (length buf).

(** ** Strings *)

(** A JavaScript string is a sequence of UTF-16 code units; [s[0]] is its
    first code unit and [s.slice(1)] the rest. *)
Definition CodeUnit := N.
Definition JsString := list CodeUnit.

(** The string written as an ASCII literal. *)
Definition js (s : string) : JsString := N_of_ascii <$> list_ascii_of_string s.

(** ** Exceptions and the emitting computation *)

Inductive JsError :=
| TypeError (msg : string)
| RangeError (msg : string)
| Error (msg : string).

Inductive Outcome (A : Type) :=
| Returned (a : A)
| Thrown (e : JsError).
Arguments Returned {A} a.
Arguments Thrown {A} e.

(** A computation that emits events of type [E] and then returns or throws. *)
Record Run (E A : Type) := MkRun { emitted : list E; outcome : Outcome A }.
Arguments MkRun {E A} emitted outcome.
Arguments emitted {E A} r.
Arguments outcome {E A} r.

Definition run_ret {E A} (a : A) : Run E A := MkRun [] (Returned a).

Definition run_bind {E A B} (m : Run E A) (k : A -> Run E B) : Run E B :=
  match outcome m with
  | Returned a => MkRun (emitted m ++ emitted (k a)) (outcome (k a))
  | Thrown e => MkRun (emitted m) (Thrown e)
  end.

Definition emit {E} (e : E) : Run E unit := MkRun [e] (Returned tt).
Definition throw {E A} (e : JsError) : Run E A := MkRun [] (Thrown e).
Definition call {E A} (o : Outcome A) : Run E A := MkRun [] o.

Declare Scope run_scope.
Delimit Scope run_scope with run.
Notation "x <- m ;; k" := (run_bind m (fun x => k))
  (at level 100, m at next level, right associativity) : run_scope.
Notation "m ;;; k" := (run_bind m (fun _ => k))
  (at level 100, right associativity) : run_scope.

(** ** Data model (./models) *)

Record FrameHeader := {
  fh_magic : Buffer;
  fh_timestamp : N;
  fh_size : N;
  fh_connectionType : N;
  fh_segmentCount : N;
  fh_isCompressed : bool
}.

Inductive Operation := send | receive.

(** models/SegmentHeader.ts; [segmentType] is the numeric enum value.  Field
    names carry a prefix because [size] is a name of the map library. *)
Record SegmentHeader := {
  sh_size : N;
  sh_sourceActor : N;
  sh_targetActor : N;
  sh_segmentType : N;
  sh_padding : N;
  sh_operation : Operation
}.

Record IpcHeader := {
  ipc_reserved : N;
  ipc_type : N;
  ipc_serverId : N;
  ipc_timestamp : N
}.

Definition Region := string.

Record OpcodeEntry := { oe_name : JsString; oe_opcode : N }.

Record OpcodeList := {
  ol_region : Region;
  ServerZoneIpcType : list OpcodeEntry;
  ClientZoneIpcType : list OpcodeEntry
}.

(** Modelled from the spec: ./BufferReader is outside the modelled sources; a
    reader is a forward-only cursor over a byte slice, created at offset 0. *)
Record BufferReader := { br_buf : Buffer; br_offset : N }.
Definition new_BufferReader (buf : Buffer) : BufferReader :=
  {| br_buf := buf; br_offset := 0 |}.

(** ** Imported modules *)

(** ./constants and the [SegmentType.Ipc] member of ./models. *)
Class Constants := {
  BUFFER_SIZE : N;
  FRAME_HEADER_SIZE : N;
  SEG_HEADER_SIZE : N;
  IPC_HEADER_SIZE : N;
  SegmentType_Ipc : N
}.

(** ./frame-processing: header parsers (a parser reading past the end of its
    slice may throw) and the magic test. *)
Class FrameProcessing := {
  parseFrameHeader : Buffer -> FrameHeader;
  parseSegmentHeader : Buffer -> Outcome SegmentHeader;
  parseIpcHeader : Buffer -> Outcome IpcHeader;
  isMagical : FrameHeader -> bool
}.

(** ./memory.  A result that [Buffer.alloc] rejects (NaN, a negative size) is
    represented by a negative number. *)
Class Memory := { roundToNextPowerOf2 : Z -> Z }.

(** pako: [inflate] returns the inflated bytes or throws a message string. *)
Class Pako := { pako_inflate : Buffer -> string + Buffer }.

(** The decoder bodies imported by load-packet-processors.ts, by name, with
    the types of the region constants and of a decoded record. *)
Class Processors := {
  ConstantsList : Type;
  ParsedIpcData : Type;
  processor : string -> BufferReader -> option ConstantsList -> Outcome ParsedIpcData
}.

(** The built-ins that are tables or native code.  [unicodeToLowerCase] is
    [String.prototype.toLowerCase] on a string of one code unit outside
    ASCII: the lower-case mapping of the Unicode tables, which can give more
    than one code unit and leaves a lone surrogate as it is.
    [objectPrototypeCall name] is the method [name] of [Object.prototype]
    called on the registry object with a decoder's arguments; its result is
    what the assignment to [parsedIpcData] stores ([None]: undefined). *)
Class Builtins `{Processors} := {
  unicodeToLowerCase : CodeUnit -> JsString;
  objectPrototypeCall :
    string -> BufferReader -> option ConstantsList -> Outcome (option ParsedIpcData)
}.

(** Modelled from the spec: ./QueueBuffer is outside the modelled sources.
    The spec bounds the queue and says what [push] does with a chunk that
    fits the remaining capacity; what it does with a larger chunk is left
    open ("a full buffer is a bug"): [qb_overflow queue chunk] is the queue
    after such a call and the exception it raises, if any. *)
Class QueueBufferModule := {
  qb_overflow : Buffer -> Buffer -> Buffer * option JsError
}.

(** ** Buffer allocation and copy (Node) *)

Definition zero_bytes (n : nat) : Buffer := replicate n x00.

(** [Buffer.alloc(size)]: zero-filled; a [RangeError] on an invalid size. *)
Definition Buffer_alloc (n : Z) : Outcome Buffer :=
  if (n <? 0)%Z then Thrown (RangeError "ERR_OUT_OF_RANGE")
  else Returned (zero_bytes (Z.to_nat n)).

(** [source.copy(target, 0, sourceStart)]: the result is [target] after the
    call.  As many bytes as fit in [target] are copied from
    [source[sourceStart..]]; nothing is copied when [sourceStart] is at or
    past the end of [source] (Node releases that reject a [sourceStart] past
    the end throw there instead; the statements below do not depend on what
    happens in that case). *)
Definition Buffer_copy (source target : Buffer) (sourceStart : N) : Buffer :=
  let src := Buffer_slice source sourceStart in
  let n := Nat.min (length src) (length target) in
  take n src ++ drop n target.

(** ** The capture interface *)

Section CaptureInterface.

Context `{Constants, FrameProcessing, Memory, Pako, Processors}.
Context `{!Builtins, QueueBufferModule}.

Definition PacketProcessor : Type :=
  BufferReader -> option ConstantsList -> Outcome ParsedIpcData.

(** The keys of the object literal returned by [loadPacketProcessors]. *)
Definition processorNames : list string :=
  ["actorCast"; "actorControl"; "actorControlSelf"; "actorControlTarget";
   "actorFreeSpawn"; "actorGauge"; "actorMove"; "actorOwner";
   "actorSetPos"; "blackList"; "cFAvailableContents"; "cFDutyInfo";
   "cFPlayerInNeed"; "cFRegisterDuty"; "charaVisualEffect";
   "clientTrigger"; "currencyCrystalInfo"; "desynthResult"; "effectResult";
   "eorzeaTimeOffset"; "equipDisplayFlags"; "eventPlay"; "eventPlay32";
   "eventPlay4"; "eventPlay8"; "eventPlayN";
   "freeCompanyUpdateShortMessage"; "initZone"; "inventoryModifyHandler";
   "inventoryTransaction"; "itemInfo"; "logMessage";
   "marketBoardItemListingCount"; "marketBoardItemListingHistory";
   "marketBoardSearchResult"; "marketTaxRates"; "mount"; "npcSpawn";
   "objectSpawn"; "persistentEffect"; "playerSetup"; "playerSpawn";
   "playerStats"; "playTime"; "prepareZoning"; "reductionResult";
   "retainerInformation"; "serverNotice"; "someDirectorUnk4";
   "statusEffectList"; "updateClassInfo"; "updateHpMpTp";
   "updateInventorySlot"; "updatePositionHandler";
   "updatePositionInstance"; "useMooch"; "weatherChange"].

(** load-packet-processors.ts: the own properties of the object literal,
    one per imported decoder. *)
Definition loadPacketProcessors : gmap JsString PacketProcessor :=
  list_to_map ((fun name => (js name, processor name)) <$> processorNames).

(** The methods that an object literal inherits from [Object.prototype];
    its one other member is the accessor [__proto__], whose value on an
    object literal is [Object.prototype] itself. *)
Definition objectPrototypeMethods : list string :=
  ["constructor"; "__defineGetter__"; "__defineSetter__"; "hasOwnProperty";
   "__lookupGetter__"; "__lookupSetter__"; "isPrototypeOf";
   "propertyIsEnumerable"; "toString"; "valueOf"; "toLocaleString"].

(** What [this._packetDefs[typeName]] can be when it is not undefined. *)
Inductive Member :=
| OwnDecoder (decode : PacketProcessor)
| InheritedMethod (name : string)
| InheritedObject.

(** [defs[typeName]]: an own property first, then the prototype. *)
Definition getMember (defs : gmap JsString PacketProcessor) (typeName : JsString)
  : option Member :=
  match defs !! typeName with
  | Some decode => Some (OwnDecoder decode)
  | None =>
      match find (fun name => bool_decide (js name = typeName)) objectPrototypeMethods with
      | Some name => Some (InheritedMethod name)
      | None =>
          if bool_decide (typeName = js "__proto__") then Some InheritedObject
          else None
      end
  end.

(** [member(reader, constants)] and the value then stored in
    [parsedIpcData]. *)
Definition callMember (member : Member) (reader : BufferReader)
    (constants : option ConstantsList) : Outcome (option ParsedIpcData) :=
  match member with
  | OwnDecoder decode =>
      match decode reader constants with
      | Returned parsed => Returned (Some parsed)
      | Thrown e => Thrown e
      end
  | InheritedMethod name => objectPrototypeCall name reader constants
  | InheritedObject => Thrown (TypeError "this._packetDefs[typeName] is not a function")
  end.

(** Modelled from the spec: ./QueueBuffer is outside the modelled sources; a
    bounded FIFO of bytes, here with the capacity [BUFFER_SIZE] it is
    created with: [push] appends a chunk that fits the remaining capacity,
    [size] counts, [peek n] is the next [n] bytes without consuming (null
    when fewer are buffered), [pop n] returns and consumes the next [n]
    bytes.  [qb_push] gives the queue after the call and the exception
    raised, if any. *)
Definition QueueBuffer := Buffer.
Definition qb_size (q : QueueBuffer) : N := Buffer_length q.
Definition qb_push (q : QueueBuffer) (bytes : Buffer) : QueueBuffer * option JsError :=
  if qb_size q + Buffer_length bytes <=? BUFFER_SIZE then (q ++ bytes, None)
  else qb_overflow q bytes.
Definition qb_peek (q : QueueBuffer) (n : N) : option Buffer :=
  if qb_size q <? n then None else Some (take (N.to_nat n) q).
Definition qb_pop (q : QueueBuffer) (n : N) : Buffer * QueueBuffer :=
  (take (N.to_nat n) q, drop (N.to_nat n) q).

(** The fields of [this].  [_opcodes] is typed as a record in the source but
    [updateOpcodesCache] can store [undefined] in it, hence the option. *)
Record CaptureInterface := {
  _bufTable : gmap N QueueBuffer;
  _opcodeLists : option (list OpcodeList);
  _constants : option (gmap Region ConstantsList);
  _packetDefs : gmap JsString PacketProcessor;
  _region : Region;
  _opcodes : option (gmap N JsString)
}.

(** The field initialisers and the synchronous part of the constructor. *)
Definition new_CaptureInterface (region : Region) : CaptureInterface :=
  {| _bufTable := ∅; _opcodeLists := None; _constants := None;
     _packetDefs := loadPacketProcessors; _region := region;
     _opcodes := Some ∅ |}.

(** The object built by the [reduce] of [updateOpcodesCache]: entries are
    written left to right, a later entry replacing an earlier one. *)
Definition opcodeTable (entries : list OpcodeEntry) : gmap N JsString :=
  foldl (fun acc entry => <[oe_opcode entry := oe_name entry]> acc) ∅ entries.

Definition updateOpcodesCache (this : CaptureInterface) : CaptureInterface :=
  let regionOpcodes :=
    match _opcodeLists this with
    | Some lists => find (fun ol => String.eqb (ol_region ol) (_region this)) lists
    | None => None
    end in
  {| _bufTable := _bufTable this; _opcodeLists := _opcodeLists this;
     _constants := _constants this; _packetDefs := _packetDefs this;
     _region := _region this;
     _opcodes :=
       match regionOpcodes with
       | Some ro => Some (opcodeTable (ServerZoneIpcType ro ++ ClientZoneIpcType ro))
       | None => None
       end |}.

Definition setRegion (region : Region) (this : CaptureInterface) : CaptureInterface :=
  updateOpcodesCache
    {| _bufTable := _bufTable this; _opcodeLists := _opcodeLists this;
       _constants := _constants this; _packetDefs := _packetDefs this;
       _region := region; _opcodes := _opcodes this |}.

(** ** Emitted records and events *)

Record Segment := {
  header : SegmentHeader;
  ipcHeader : option IpcHeader;
  ipcData : option Buffer;
  parsedIpcData : option ParsedIpcData
}.

Record Endpoint := { address : string; port : N }.

Record ChildFrame := { cf_header : FrameHeader; segments : list Segment }.

Record Packet := {
  source : Endpoint;
  destination : Endpoint;
  childFrame : ChildFrame
}.

Record DiagnosticInfo := { lastProcessingTimeMs : Z }.

(** The members of [CaptureInterfaceEvents]. *)
Inductive Event :=
| EvReady
| EvError (err : JsError)
| EvPacket (p : Packet)
| EvSegment (s : Segment)
| EvMessage (type : JsString) (m : Segment)
| EvDiagnostics (d : DiagnosticInfo).

(** ** The frame processor *)

Local Open Scope run_scope.

(** [value || fallback] on an optional string: [undefined] and the empty
    string are falsy. *)
Definition js_or (value : option JsString) (fallback : JsString) : JsString :=
  match value with
  | Some (c :: rest) => c :: rest
  | Some [] | None => fallback
  end.

(** [c.toLowerCase()] on a string of one code unit: the letters A to Z go
    to a to z, the rest of ASCII stays, and outside ASCII the Unicode
    tables decide. *)
Definition toLowerCase (c : CodeUnit) : JsString :=
  if (65 <=? c) && (c <=? 90) then [c + 32]
  else if c <? 128 then [c]
  else unicodeToLowerCase c.

(** [typeName[0].toLowerCase() + typeName.slice(1)]; [typeName[0]] is
    [undefined] on the empty string. *)
Definition lowerFirst (typeName : JsString) : Outcome JsString :=
  match typeName with
  | c :: rest => Returned (toLowerCase c ++ rest)
  | [] => Thrown (TypeError "Cannot read properties of undefined (reading 'toLowerCase')")
  end.

(** Lines 218-219: the name of the message of an IPC header. *)
Definition messageName (this : CaptureInterface) (ipcHeader : IpcHeader)
  : Outcome JsString :=
  match _opcodes this with
  | None => Thrown (TypeError "Cannot read properties of undefined")
  | Some opcodes => lowerFirst (js_or (opcodes !! ipc_type ipcHeader) (js "unknown"))
  end.

(** Lines 222-225: when [this._packetDefs[typeName]] and the constants are
    both truthy, the member is called on a new reader and the region's
    constants, and its result is stored. *)
Definition unmarshal (this : CaptureInterface) (typeName : JsString)
    (ipcData : Buffer) : Outcome (option ParsedIpcData) :=
  match getMember (_packetDefs this) typeName, _constants this with
  | Some member, Some constants =>
      callMember member (new_BufferReader ipcData) (constants !! _region this)
  | _, _ => Returned None
  end.

(** Lines 200-207: the IPC header and body of a segment, both defined for an
    IPC segment and both undefined otherwise.  [ipcPayload] runs to the end
    of the frame body, so the copy fills [ipcData] from whatever follows
    the IPC header. *)
Definition ipcParts (remainder : Buffer) (offset : N)
    (segmentHeader : SegmentHeader) : Outcome (option (IpcHeader * Buffer)) :=
  if sh_segmentType segmentHeader =? SegmentType_Ipc then
    let ipcPayload := Buffer_slice remainder (offset + SEG_HEADER_SIZE) in
    match parseIpcHeader ipcPayload with
    | Thrown e => Thrown e
    | Returned ipcHeader =>
        match Buffer_alloc (roundToNextPowerOf2
                 (Z.of_N (sh_size segmentHeader) - Z.of_N SEG_HEADER_SIZE
                  - Z.of_N IPC_HEADER_SIZE)) with
        | Thrown e => Thrown e
        | Returned ipcData =>
            Returned (Some (ipcHeader, Buffer_copy ipcPayload ipcData IPC_HEADER_SIZE))
        end
    end
  else Returned None.

(** One iteration of the segment loop (lines 197-232) at [offset]: the
    events it emits, the segment record as it stands when the iteration
    ends, and the size by which the offset advances.  The record pushed on
    [packet.childFrame.segments] is the object the events carry, so the
    later assignment to [parsedIpcData] shows through the list as well. *)
Definition processSegment (this : CaptureInterface) (remainder : Buffer)
    (offset : N) : Run Event (Segment * N) :=
  let segmentPayload := Buffer_slice remainder offset in
  segmentHeader <- call (parseSegmentHeader segmentPayload) ;;
  ipc <- call (ipcParts remainder offset segmentHeader) ;;
  let segment :=
    {| header := segmentHeader; ipcHeader := fst <$> ipc;
       ipcData := snd <$> ipc; parsedIpcData := None |} in
  segment <-
    match ipc with
    | Some (ipcHeader, ipcData) =>
        typeName <- call (messageName this ipcHeader) ;;
        parsed <- call (unmarshal this typeName ipcData) ;;
        let segment :=
          {| header := segmentHeader; ipcHeader := Some ipcHeader;
             ipcData := Some ipcData; parsedIpcData := parsed |} in
        emit (EvMessage typeName segment) ;;;
        run_ret segment
    | None => run_ret segment
    end ;;
  emit (EvSegment segment) ;;;
  run_ret (segment, sh_size segmentHeader).

(** The [for] loop of lines 195-233 with [n] iterations left; [segs] is
    [packet.childFrame.segments] so far. *)
Fixpoint segmentLoop (this : CaptureInterface) (remainder : Buffer) (n : nat)
    (offset : N) (segs : list Segment) : Run Event (list Segment) :=
  match n with
  | O => run_ret segs
  | S n' =>
      r <- processSegment this remainder offset ;;
      segmentLoop this remainder n' (offset + snd r) (segs ++ [fst r])
  end.

(** Lines 182-193: the body to iterate over, or [None] when the frame is
    dropped.  An inflate error other than "incorrect header check" leaves
    the catch block without returning, with [remainder] unchanged. *)
Definition decompress (frameHeader : FrameHeader) (remainder : Buffer)
  : option Buffer :=
  if fh_isCompressed frameHeader then
    match pako_inflate remainder with
    | inr decompressed => Some decompressed
    | inl err =>
        if String.eqb err "incorrect header check" then None else Some remainder
    end
  else Some remainder.

(** [_processFrame]; [perf] holds the two readings of [performance.now()]. *)
Definition _processFrame (this : CaptureInterface) (frameHeader : FrameHeader)
    (buf : Buffer) (srcAddr dstAddr : string) (srcPort dstPort : N)
    (perf : Z * Z) : Run Event unit :=
  let remainder := Buffer_slice buf FRAME_HEADER_SIZE in
  match decompress frameHeader remainder with
  | None => run_ret tt
  | Some remainder =>
      segs <- segmentLoop this remainder (N.to_nat (fh_segmentCount frameHeader)) 0 [] ;;
      emit (EvPacket
              {| source := {| address := srcAddr; port := srcPort |};
                 destination := {| address := dstAddr; port := dstPort |};
                 childFrame := {| cf_header := frameHeader; segments := segs |} |}) ;;;
      emit (EvDiagnostics {| lastProcessingTimeMs := (snd perf - fst perf)%Z |})
  end.

(** ** The reassembler *)

(** Modelled from the spec: [tryGetFrameHeader] of ./frame-processing peeks
    FRAME_HEADER_SIZE bytes, returns null if fewer are buffered, else the
    parsed header, without consuming. *)
Definition tryGetFrameHeader (buf : QueueBuffer) : option FrameHeader :=
  parseFrameHeader <$> qb_peek buf FRAME_HEADER_SIZE.

(** The [while] loop of lines 142-152 over the flow's queue.  [fuel] bounds
    the number of times the loop condition is evaluated ([None]: the bound
    was reached); [perf k] holds the clock readings of the [k]-th frame.
    The result is the queue after the loop and the events emitted; an
    exception of [_processFrame] leaves the loop with the frame popped. *)
Fixpoint reassemble (fuel : nat) (this : CaptureInterface) (buf : QueueBuffer)
    (srcAddr dstAddr : string) (srcPort dstPort : N) (perf : nat -> Z * Z)
    (k : nat) : option (QueueBuffer * Run Event unit) :=
  match fuel with
  | O => None
  | S fuel' =>
      match tryGetFrameHeader buf with
      | Some frameHeader =>
          if isMagical frameHeader && (fh_size frameHeader <=? qb_size buf) then
            let popped := qb_pop buf (fh_size frameHeader) in
            let r := _processFrame this frameHeader (fst popped)
                       srcAddr dstAddr srcPort dstPort (perf k) in
            match outcome r with
            | Thrown e => Some (snd popped, r)
            | Returned _ =>
                match reassemble fuel' this (snd popped)
                        srcAddr dstAddr srcPort dstPort perf (S k) with
                | Some (buf', r') =>
                    Some (buf', MkRun (emitted r ++ emitted r') (outcome r'))
                | None => None
                end
            end
          else Some (buf, run_ret tt)
      | None => Some (buf, run_ret tt)
      end
  end.

(** What the decoders of the capture library report for one captured
    packet. *)
Record Decoded := {
  eth_is_ipv4 : bool;
  ip_srcaddr : string;
  ip_dstaddr : string;
  ip_is_tcp : bool;
  ip_totallen : Z;
  ip_hdrlen : Z;
  tcp_hdrlen : Z;
  tcp_flags : Z;
  tcp_srcport : N;
  tcp_dstport : N
}.

(** [payload.slice(start)] for any integer [start]: a negative [start]
    counts from the end. *)
Definition Buffer_slice_from (payload : Buffer) (start : Z) : Buffer :=
  if (start <? 0)%Z
  then drop (Z.to_nat (Z.max 0 (Z.of_nat (length payload) + start))) payload
  else drop (Z.to_nat start) payload.

(** [this._bufTable[port] ||= QueueBuffer.fromBuffer(...)]: the table with
    the flow's queue present, and that queue; a new queue holds no bytes. *)
Definition _getBuffer (table : gmap N QueueBuffer) (port : N)
  : gmap N QueueBuffer * QueueBuffer :=
  match table !! port with
  | Some q => (table, q)
  | None => (<[port := []]> table, [])
  end.

(** [this] with the queue of [port] as the handler left it. *)
Definition with_queue (this : CaptureInterface) (port : N) (q : QueueBuffer)
  : CaptureInterface :=
  {| _bufTable := <[port := q]> (_bufTable this);
     _opcodeLists := _opcodeLists this;
     _constants := _constants this;
     _packetDefs := _packetDefs this;
     _region := _region this;
     _opcodes := _opcodes this |}.

(** The "packet" handler installed by [_registerInternalHandlers] (lines
    119-153) on the captured bytes [payload].  An exception of [push]
    leaves the handler before the loop. *)
Definition onPacket (fuel : nat) (this : CaptureInterface) (payload : Buffer)
    (d : Decoded) (perf : nat -> Z * Z)
  : option (CaptureInterface * Run Event unit) :=
  if negb (eth_is_ipv4 d) then Some (this, run_ret tt)
  else if negb (ip_is_tcp d) then Some (this, run_ret tt)
  else
    let datalen := (ip_totallen d - ip_hdrlen d - tcp_hdrlen d)%Z in
    if (Z.land (tcp_flags d) 8 =? 0)%Z then Some (this, run_ret tt)
    else
      let childFramePayload :=
        Buffer_slice_from payload (Z.of_nat (length payload) - datalen) in
      let pushed := qb_push (snd (_getBuffer (_bufTable this) (tcp_dstport d)))
                      childFramePayload in
      match snd pushed with
      | Some e => Some (with_queue this (tcp_dstport d) (fst pushed), throw e)
      | None =>
          match reassemble fuel this (fst pushed) (ip_srcaddr d) (ip_dstaddr d)
                  (tcp_srcport d) (tcp_dstport d) perf 0 with
          | Some (buf', r) => Some (with_queue this (tcp_dstport d) buf', r)
          | None => None
          end
      end.

(** ** Construction, loading and the event emitter *)

Inductive EventName :=
| ready | error | packet | segment | message | diagnostics.

Definition eventName (e : Event) : EventName :=
  match e with
  | EvReady => ready
  | EvError _ => error
  | EvPacket _ => packet
  | EvSegment _ => segment
  | EvMessage _ _ => message
  | EvDiagnostics _ => diagnostics
  end.

Definition EventName_eqb (a b : EventName) : bool :=
  match a, b with
  | ready, ready | error, error | packet, packet | segment, segment
  | message, message | diagnostics, diagnostics => true
  | _, _ => false
  end.

(** The promise chain of the constructor (lines 64-67): the opcode download
    is pending, then the constants download, then both have resolved; a
    rejected download ends the chain. *)
Inductive Loading :=
| LoadingOpcodes
| LoadingConstants
| Loaded
| LoadRejected.

(** An instance at run time.  [listeners] is the emitter's registration
    list ([on] appends a listener, identified by a number); [emissions] logs
    the calls of [this.emit]; [delivered] logs the calls of listeners. *)
Record Instance := {
  this_ : CaptureInterface;
  loading : Loading;
  listeners : list (EventName * nat);
  emissions : list Event;
  delivered : list (nat * Event)
}.

Definition new_Instance (region : Region) : Instance :=
  {| this_ := new_CaptureInterface region; loading := LoadingOpcodes;
     listeners := []; emissions := []; delivered := [] |}.

(** [emitter.emit(e)] of Node's events module: the listeners registered
    under the event's name at the time of the call are called in
    registration order. *)
Definition recipients (ls : list (EventName * nat)) (e : Event) : list (nat * Event) :=
  (fun l => (snd l, e)) <$> List.filter (fun l => EventName_eqb (fst l) (eventName e)) ls.

Definition emit_on (i : Instance) (e : Event) : Instance :=
  {| this_ := this_ i; loading := loading i; listeners := listeners i;
     emissions := emissions i ++ [e];
     delivered := delivered i ++ recipients (listeners i) e |}.

Definition with_this (i : Instance) (t : CaptureInterface) (l : Loading) : Instance :=
  {| this_ := t; loading := l; listeners := listeners i;
     emissions := emissions i; delivered := delivered i |}.

(** What happens to an instance from outside. *)
Inductive Input :=
| Subscribe (name : EventName) (listener : nat)
| OpcodesSettled (result : option (list OpcodeList))
| ConstantsSettled (result : option (gmap Region ConstantsList))
| CallSetRegion (region : Region).

Definition set_opcodeLists (t : CaptureInterface) (lists : list OpcodeList) : CaptureInterface :=
  {| _bufTable := _bufTable t; _opcodeLists := Some lists;
     _constants := _constants t; _packetDefs := _packetDefs t;
     _region := _region t; _opcodes := _opcodes t |}.

Definition set_constants (t : CaptureInterface)
    (constants : gmap Region ConstantsList) : CaptureInterface :=
  {| _bufTable := _bufTable t; _opcodeLists := _opcodeLists t;
     _constants := Some constants; _packetDefs := _packetDefs t;
     _region := _region t; _opcodes := _opcodes t |}.

(** One step: [on] registers and calls nothing; [_loadOpcodes] resolves by
    storing the lists and rebuilding the cache, after which the constants
    download starts; [_loadConstants] resolves by storing the constants,
    after which "ready" is emitted.  A download cannot settle twice or out
    of turn, so such inputs leave the instance as it is. *)
Definition step (i : Instance) (x : Input) : Instance :=
  match x with
  | Subscribe name listener =>
      {| this_ := this_ i; loading := loading i;
         listeners := listeners i ++ [(name, listener)];
         emissions := emissions i; delivered := delivered i |}
  | OpcodesSettled result =>
      match loading i, result with
      | LoadingOpcodes, Some lists =>
          with_this i (updateOpcodesCache (set_opcodeLists (this_ i) lists)) LoadingConstants
      | LoadingOpcodes, None => with_this i (this_ i) LoadRejected
      | _, _ => i
      end
  | ConstantsSettled result =>
      match loading i, result with
      | LoadingConstants, Some constants =>
          emit_on (with_this i (set_constants (this_ i) constants) Loaded) EvReady
      | LoadingConstants, None => with_this i (this_ i) LoadRejected
      | _, _ => i
      end
  | CallSetRegion region => with_this i (setRegion region (this_ i)) (loading i)
  end.

Definition steps (i : Instance) (xs : list Input) : Instance := foldl step i xs.

End CaptureInterface.

(** ** A run of captured packets *)

Section Capture.

Context `{Constants, FrameProcessing, Memory, Pako, Processors}.
Context `{!Builtins, QueueBufferModule}.

(** [get constants()], lines 50-52. *)
Definition get_constants (this : CaptureInterface) : option ConstantsList :=
  match _constants this with
  | Some constants => constants !! _region this
  | None => None
  end.

(** The TCP payload that the handler pushes (lines 132-138): the last
    [datalen] bytes of the captured packet. *)
Definition childFramePayload (payload : Buffer) (d : Decoded) : Buffer :=
  Buffer_slice_from payload
    (Z.of_nat (length payload) - (ip_totallen d - ip_hdrlen d - tcp_hdrlen d)).

(** One captured packet: its bytes, what the decoders report, and the clock
    readings for the frames it completes. *)
Record Captured := {
  cap_payload : Buffer;
  cap_decoded : Decoded;
  cap_perf : nat -> Z * Z
}.

(** The handler called on each captured packet in turn.  An exception that
    leaves the handler is not caught by anything in the class, so the run
    ends with it. *)
Fixpoint capture (fuel : nat) (this : CaptureInterface) (packets : list Captured)
  : option (CaptureInterface * Run Event unit) :=
  match packets with
  | [] => Some (this, run_ret tt)
  | p :: rest =>
      match onPacket fuel this (cap_payload p) (cap_decoded p) (cap_perf p) with
      | Some (this', r) =>
          match outcome r with
          | Thrown e => Some (this', r)
          | Returned _ =>
              match capture fuel this' rest with
              | Some (this'', r') =>
                  Some (this'', MkRun (emitted r ++ emitted r') (outcome r'))
              | None => None
              end
          end
      | None => None
      end
  end.

End Capture.

(** ** Decoders (packet-processors/processors) *)

(** The methods of ./BufferReader that the decoders call.  A method takes
    the reader as it stands and gives the value read and the reader after
    the read, or throws.  [Position3] is the record of three floats that
    [nextPosition3] returns. *)
Class BufferReaderOps := {
  Position3 : Type;
  nextUInt8 : BufferReader -> Outcome (N * BufferReader);
  nextUInt16 : BufferReader -> Outcome (N * BufferReader);
  nextUInt32 : BufferReader -> Outcome (N * BufferReader);
  nextUInt64 : BufferReader -> Outcome (N * BufferReader);
  nextPosition3 : BufferReader -> Outcome (Position3 * BufferReader);
  nextString : BufferReader -> Outcome (string * BufferReader)
}.

Section Decoders.

Context `{BufferReaderOps}.

(** What a decoder returns: numbers (bigints included), booleans, strings,
    positions, arrays, and objects as their properties in source order. *)
#[local] Set Warnings "-register-all".
Inductive Value :=
| VNumber (n : N)
| VBoolean (b : bool)
| VString (s : string)
| VPosition (p : Position3)
| VArray (items : list Value)
| VObject (properties : list (string * Value)).

(** A computation on the reader: the value and the reader after it, or an
    exception. *)
Definition Decode (A : Type) : Type := BufferReader -> Outcome (A * BufferReader).

Definition decode_ret {A} (a : A) : Decode A := fun reader => Returned (a, reader).

Definition decode_bind {A B} (m : Decode A) (k : A -> Decode B) : Decode B :=
  fun reader =>
    match m reader with
    | Returned (a, reader') => k a reader'
    | Thrown e => Thrown e
    end.

Definition decode_map {A B} (f : A -> B) (m : Decode A) : Decode B :=
  decode_bind m (fun a => decode_ret (f a)).

(** An object literal: the initialisers run in source order. *)
Fixpoint objectLiteral (properties : list (string * Decode Value))
  : Decode (list (string * Value)) :=
  match properties with
  | [] => decode_ret []
  | (name, init) :: rest =>
      decode_bind init (fun v =>
      decode_bind (objectLiteral rest) (fun vs =>
      decode_ret ((name, v) :: vs)))
  end.

(** [Array(n).fill(null).map(() => item)]: [item] runs [n] times, for the
    indices in increasing order. *)
Fixpoint arrayOf (n : nat) (item : Decode Value) : Decode (list Value) :=
  match n with
  | O => decode_ret []
  | S n' =>
      decode_bind item (fun v =>
      decode_bind (arrayOf n' item) (fun vs =>
      decode_ret (v :: vs)))
  end.

Definition uint8 : Decode Value := decode_map VNumber nextUInt8.
Definition uint16 : Decode Value := decode_map VNumber nextUInt16.
Definition uint32 : Decode Value := decode_map VNumber nextUInt32.
Definition uint64 : Decode Value := decode_map VNumber nextUInt64.

(** npcSpawn.ts, lines 6-62: the properties before [effects]. *)
Definition npcSpawnHead : list (string * Decode Value) :=
    [
     ("gimmickId", uint32); ("u2b", uint8); ("u2ab", uint8); ("gmRank", uint8);
     ("u3b", uint8); ("aggressionMode", uint8); ("onlineStatus", uint8); ("u3c", uint8);
     ("pose", uint8); ("u4", uint32); ("targetId", uint64); ("u6", uint32); ("u7", uint32);
     ("mainWeaponModel", uint64); ("secWeaponModel", uint64);
     ("craftToolModel", uint64); ("u14", uint32); ("u15", uint32); ("bNpcBase", uint32);
     ("bNpcName", uint32); ("levelId", uint32); ("u19", uint32); ("directorId", uint32);
     ("spawnerId", uint32); ("parentActorId", uint32); ("hPMax", uint32);
     ("hPCurr", uint32); ("displayFlags", uint32); ("fateId", uint16);
     ("mPCurr", uint16); ("tPCurr", uint16); ("mPMax", uint16); ("tPMax", uint16);
     ("modelChara", uint16); ("rotation", uint16); ("activeMinion", uint16);
     ("spawnIndex", uint8); ("state", uint8); ("persistantEmote", uint8);
     ("modelType", uint8); ("subtype", uint8); ("voice", uint8); ("u25c", uint16);
     ("enemyType", uint8); ("level", uint8); ("classJob", uint8); ("u26d", uint8);
     ("u27a", uint16); ("currentMount", uint8); ("mountHead", uint8);
     ("mountBody", uint8); ("mountFeet", uint8); ("mountColor", uint8); ("scale", uint8);
     ("elementalLevel", uint16); ("element", uint16); ("u30b", uint32)
    ].

(** Lines 63-70: one element of [effects]. *)
Definition npcSpawnEffect : Decode Value :=
  decode_map VObject (objectLiteral [("id", uint16); ("sourceActorId", uint32)]).

(** Lines 63-83: [effects] to [looks]. *)
Definition npcSpawnBody : list (string * Decode Value) :=
  [("effects", decode_map VArray (arrayOf 30 npcSpawnEffect));
   ("effect_id", uint16);
   ("sourceActorId", uint32);
   ("pos", decode_map VPosition nextPosition3);
   ("models", decode_map VArray (arrayOf 1 uint32));
   ("looks", decode_map VArray (arrayOf 26 uint8))].

(** Lines 84-86: the two strings and the last byte. *)
Definition npcSpawnTail : list (string * Decode Value) :=
  [("name", decode_map VString nextString);
   ("fcTag", decode_map VString nextString);
   ("bNpcPartSlot", uint8)].

(** [npcSpawn(reader)]: one object literal, its properties in the order of
    the source. *)
Definition npcSpawn : Decode Value :=
  decode_map VObject (objectLiteral (npcSpawnHead ++ npcSpawnBody ++ npcSpawnTail)).

(** [desynthResult(reader)], lines 92-102 of the same file. *)
Definition desynthResult : Decode Value :=
  decode_map VObject (objectLiteral
    [("unknown0", uint32);
     ("unknown1", uint32);
     ("itemId", decode_map (fun n => VNumber (n mod 1000000)) nextUInt32);
     ("itemHQ", decode_map (fun n => VBoolean (1000000 <? n)) nextUInt32);
     ("itemResultId", decode_map (fun n => VNumber (n mod 1000000)) nextUInt32);
     ("itemResultHQ", decode_map (fun n => VBoolean (1000000 <? n)) nextUInt32);
     ("itemResultQuantity", uint32)]).

(** The value of a property of an object. *)
Definition property (name : string) (v : Value) : option Value :=
  match v with
  | VObject properties => snd <$> find (fun p => String.eqb (fst p) name) properties
  | _ => None
  end.

End Decoders.

(** ** A reference instance of the imported modules

    The statements below hold for every instance of the interfaces.  To run
    the model on concrete bytes this module fixes one instance: a capacity
    of one megabyte, the sizes 40/16/16 and little-endian layouts for the
    three headers, an inflate that covers zlib's header checks and stored
    blocks, stand-in decoders, the case mapping of Latin-1 and of U+0130,
    the methods of [Object.prototype] as ECMAScript defines them, and a
    queue that rejects a chunk it cannot hold. *)

Module Wire.

Definition u8 (b : byte) : N := Byte.to_N b.

Definition byte_of (n : N) : byte :=
  match Byte.of_N (n mod 256) with Some b => b | None => x00 end.

(** Little-endian value of a byte string, and its inverse at a width. *)
Definition le_value (bytes : Buffer) : N :=
  foldr (fun b acc => u8 b + 256 * acc) 0 bytes.

Fixpoint le_bytes (width : nat) (n : N) : Buffer :=
  match width with
  | O => []
  | S w => byte_of n :: le_bytes w (n / 256)
  end.

(** [buf.readUIntLE(offset, width)]: a [RangeError] past the end. *)
Definition readUIntLE (buf : Buffer) (offset width : nat) : Outcome N :=
  let bytes := take width (drop offset buf) in
  if (length bytes <? width)%nat then Thrown (RangeError "ERR_OUT_OF_RANGE")
  else Returned (le_value bytes).

Definition field (buf : Buffer) (offset width : nat) : N :=
  le_value (take width (drop offset buf)).

#[export] Instance constants : Constants :=
  {| BUFFER_SIZE := 1048576; FRAME_HEADER_SIZE := 40; SEG_HEADER_SIZE := 16; IPC_HEADER_SIZE := 16;
     SegmentType_Ipc := 3 |}.

Definition standardMagic : Buffer :=
  [x52; x52; xa0; x41; xff; x5d; x46; xe2; x7f; x2a; x64; x4d; x7b; x99; xc4; x75].
Definition keepaliveMagic : Buffer := repeat x00 16.

Fixpoint Buffer_eqb (a b : Buffer) : bool :=
  match a, b with
  | [], [] => true
  | x :: a', y :: b' => Byte.eqb x y && Buffer_eqb a' b'
  | _, _ => false
  end.

Definition parseSegmentHeader_le (buf : Buffer) : Outcome SegmentHeader :=
  match readUIntLE buf 0 4, readUIntLE buf 4 4, readUIntLE buf 8 4,
        readUIntLE buf 12 2, readUIntLE buf 14 2 with
  | Returned sz, Returned src, Returned tgt, Returned ty, Returned pad =>
      Returned {| sh_size := sz; sh_sourceActor := src; sh_targetActor := tgt;
                  sh_segmentType := ty; sh_padding := pad; sh_operation := receive |}
  | Thrown e, _, _, _, _ | _, Thrown e, _, _, _ | _, _, Thrown e, _, _
  | _, _, _, Thrown e, _ | _, _, _, _, Thrown e => Thrown e
  end.

Definition parseIpcHeader_le (buf : Buffer) : Outcome IpcHeader :=
  match readUIntLE buf 0 2, readUIntLE buf 2 2, readUIntLE buf 6 2,
        readUIntLE buf 8 4 with
  | Returned r, Returned ty, Returned srv, Returned ts =>
      Returned {| ipc_reserved := r; ipc_type := ty; ipc_serverId := srv;
                  ipc_timestamp := ts |}
  | Thrown e, _, _, _ | _, Thrown e, _, _ | _, _, Thrown e, _
  | _, _, _, Thrown e => Thrown e
  end.

#[export] Instance frameProcessing : FrameProcessing :=
  {| parseFrameHeader buf :=
       {| fh_magic := take 16 buf; fh_timestamp := field buf 16 8;
          fh_size := field buf 24 4; fh_connectionType := field buf 28 2;
          fh_segmentCount := field buf 30 2;
          fh_isCompressed := negb (field buf 33 1 =? 0) |};
     parseSegmentHeader := parseSegmentHeader_le;
     parseIpcHeader := parseIpcHeader_le;
     isMagical h :=
       Buffer_eqb (fh_magic h) standardMagic || Buffer_eqb (fh_magic h) keepaliveMagic |}.

(** The least power of two that is at least [n], for [n] up to [2^fuel]. *)
Fixpoint pow2_from (fuel : nat) (p n : Z) : Z :=
  match fuel with
  | O => p
  | S f => if (n <=? p)%Z then p else pow2_from f (2 * p)%Z n
  end.

#[export] Instance memory : Memory :=
  {| roundToNextPowerOf2 n := if (n <=? 0)%Z then 0%Z else pow2_from 32 1%Z n |}.

Definition adler32 (data : Buffer) : N :=
  let s := foldl (fun s x =>
                    let a := (fst s + u8 x) mod 65521 in (a, (snd s + a) mod 65521))
                 (1, 0) data in
  snd s * 65536 + fst s.

Definition be_value (bytes : Buffer) : N := le_value (rev bytes).

(** The stored blocks of a deflate stream: the output and the bytes left
    after the final block. *)
Fixpoint stored_blocks (fuel : nat) (input out : Buffer) : string + Buffer * Buffer :=
  match fuel, input with
  | S f, hdr :: rest =>
      let btype := (u8 hdr / 2) mod 4 in
      if btype =? 3 then inl "invalid block type"
      else if btype =? 0 then
        match rest with
        | l0 :: l1 :: n0 :: n1 :: data =>
            let len := le_value [l0; l1] in
            if negb (len + le_value [n0; n1] =? 65535)
            then inl "invalid stored block lengths"
            else if Buffer_length data <? len then inl "buffer error"
            else if N.testbit (u8 hdr) 0
                 then inr (out ++ take (N.to_nat len) data, drop (N.to_nat len) data)
                 else stored_blocks f (drop (N.to_nat len) data)
                        (out ++ take (N.to_nat len) data)
        | _ => inl "buffer error"
        end
      else inl "huffman block"
  | _, _ => inl "buffer error"
  end.

(** zlib's inflate as far as this instance goes: the header checks in the
    order zlib makes them, stored blocks, the Adler-32 trailer.  Its answers
    "buffer error" (truncated stream) and "huffman block" (a compressed
    block) stand for what pako does there; nothing below runs it on them. *)
Definition inflate (input : Buffer) : string + Buffer :=
  match input with
  | cmf :: flg :: rest =>
      if negb ((u8 cmf * 256 + u8 flg) mod 31 =? 0) then inl "incorrect header check"
      else if negb (u8 cmf mod 16 =? 8) then inl "unknown compression method"
      else if 7 <? u8 cmf / 16 then inl "invalid window size"
      else if N.testbit (u8 flg) 5 then inl "need dictionary"
      else
        match stored_blocks (length rest) rest [] with
        | inl err => inl err
        | inr (out, trailer) =>
            if (length trailer <? 4)%nat then inl "buffer error"
            else if be_value (take 4 trailer) =? adler32 out then inr out
            else inl "incorrect data check"
        end
  | _ => inl "buffer error"
  end.

#[export] Instance pako : Pako := {| pako_inflate := inflate |}.

(** What [parsedIpcData] can hold: the record of a decoder or, from a
    method of [Object.prototype], a string, a boolean, the registry object
    or the reader. *)
Inductive Parsed :=
| Fields (fields : list (string * N))
| Text (s : string)
| Flag (b : bool)
| TheRegistry
| TheReader (reader : BufferReader).

(** Stand-in decoders: each returns the first four bytes of the body as one
    field, except [inventoryModifyHandler], which reads a member of the
    region constants and so throws when they are [undefined]. *)
Definition decoder (name : string) (reader : BufferReader)
    (constants : option (list (string * N))) : Outcome Parsed :=
  if String.eqb name "inventoryModifyHandler" then
    match constants with
    | None => Thrown (TypeError "Cannot read properties of undefined")
    | Some c => Returned (Fields (("action", field (br_buf reader) 0 2) :: c))
    end
  else Returned (Fields [("u32", field (br_buf reader) 0 4)]).

#[export] Instance processors : Processors :=
  {| ConstantsList := list (string * N);
     ParsedIpcData := Parsed;
     processor := decoder |}.

(** The lower-case mapping of the code units from U+0080 to U+00FF and of
    U+0130; the other code units stand as they are. *)
Definition latin1ToLowerCase (c : CodeUnit) : JsString :=
  if (192 <=? c) && (c <=? 222) && negb (c =? 215) then [c + 32]
  else if c =? 304 then [105; 775]
  else [c].

(** The methods of [Object.prototype] called on the registry with a reader
    and the constants: [toString] gives "[object Object]", [valueOf] the
    registry, [constructor] its first argument; the reader is no property
    key of the registry and the registry no prototype of the reader;
    [__defineGetter__] and [__defineSetter__] reject constants that are not
    a function. *)
Definition prototypeCall (name : string) (reader : BufferReader)
    (constants : option (list (string * N))) : Outcome (option Parsed) :=
  if String.eqb name "toString" || String.eqb name "toLocaleString"
  then Returned (Some (Text "[object Object]"))
  else if String.eqb name "valueOf" then Returned (Some TheRegistry)
  else if String.eqb name "constructor" then Returned (Some (TheReader reader))
  else if String.eqb name "__defineGetter__" || String.eqb name "__defineSetter__"
  then Thrown (TypeError "Expecting function")
  else if String.eqb name "__lookupGetter__" || String.eqb name "__lookupSetter__"
  then Returned None
  else Returned (Some (Flag false)).

#[export] Instance builtins : Builtins :=
  {| unicodeToLowerCase := latin1ToLowerCase; objectPrototypeCall := prototypeCall |}.

(** A queue that leaves the bytes it holds and throws. *)
#[export] Instance queueBufferModule : QueueBufferModule :=
  {| qb_overflow q _ := (q, Some (RangeError "ERR_OUT_OF_RANGE")) |}.

(** *** Sample frames *)

Definition frameBytes (magic : Buffer) (segmentCount : N) (isCompressed : bool)
    (body : Buffer) : Buffer :=
  magic ++ le_bytes 8 0 ++ le_bytes 4 (40 + Buffer_length body)
    ++ le_bytes 2 0 ++ le_bytes 2 segmentCount
    ++ [x00; if isCompressed then x01 else x00] ++ le_bytes 6 0 ++ body.

Definition segmentBytes (segmentType : N) (body : Buffer) : Buffer :=
  le_bytes 4 (16 + Buffer_length body) ++ le_bytes 4 1 ++ le_bytes 4 2
    ++ le_bytes 2 segmentType ++ le_bytes 2 0 ++ body.

Definition ipcBytes (opcode : N) (body : Buffer) : Buffer :=
  segmentBytes 3 (le_bytes 2 20 ++ le_bytes 2 opcode ++ le_bytes 2 0
                    ++ le_bytes 2 7 ++ le_bytes 4 0 ++ le_bytes 4 0 ++ body).

Definition header_of (frame : Buffer) : FrameHeader := parseFrameHeader (take 40 frame).

Definition serverZone : list OpcodeEntry :=
  [ {| oe_name := js "NpcSpawn"; oe_opcode := 100 |};
    {| oe_name := js "InventoryModifyHandler"; oe_opcode := 101 |} ].

Definition clientZone : list OpcodeEntry :=
  [ {| oe_name := js "ClientTrigger"; oe_opcode := 200 |} ].

Definition globalOpcodes : list OpcodeList :=
  [ {| ol_region := "Global"; ServerZoneIpcType := serverZone;
       ClientZoneIpcType := clientZone |} ].

Definition globalTable : gmap N JsString := opcodeTable (serverZone ++ clientZone).

(** An instance for region "Global" after the opcode lists have loaded. *)
Definition withOpcodes : CaptureInterface :=
  updateOpcodesCache (set_opcodeLists (new_CaptureInterface "Global") globalOpcodes).

(** The same after constants have loaded that have no entry for "Global". *)
Definition withForeignConstants : CaptureInterface :=
  set_constants withOpcodes {["CN" := [("InventoryOperationBaseValue", 500)]]}.

Definition withConstants : CaptureInterface :=
  set_constants withOpcodes {["Global" := [("InventoryOperationBaseValue", 500)]]}.

(** The instance after a switch to a region that the lists do not carry:
    its opcode map is undefined. *)
Definition withoutRegion : CaptureInterface := setRegion "KR" withConstants.

(** Lists whose entries are an empty name, the name of a method of
    [Object.prototype], and a name that starts with U+00C9. *)
Definition oddOpcodes : list OpcodeList :=
  [ {| ol_region := "Global";
       ServerZoneIpcType :=
         [ {| oe_name := []; oe_opcode := 102 |};
           {| oe_name := js "ToString"; oe_opcode := 103 |};
           {| oe_name := 201 :: js "clair"; oe_opcode := 104 |} ];
       ClientZoneIpcType := [] |} ].

Definition withOddOpcodes : CaptureInterface :=
  set_constants
    (updateOpcodesCache (set_opcodeLists (new_CaptureInterface "Global") oddOpcodes))
    {["Global" := [("InventoryOperationBaseValue", 500)]]}.

Definition keepaliveFrame : Buffer := frameBytes keepaliveMagic 0 false [].

(** One IPC segment with opcode 100 (NpcSpawn) and a five-byte body. *)
Definition npcSpawnFrame : Buffer :=
  frameBytes standardMagic 1 false (ipcBytes 100 [x01; x02; x03; x04; x05]).

(** An IPC segment with opcode 101 (InventoryModifyHandler), then a segment
    of type 7. *)
Definition mixedFrame : Buffer :=
  frameBytes standardMagic 2 false
    (ipcBytes 101 [x01; x02; x03; x04; x05] ++ segmentBytes 7 [x09]).

(** A segment of type 7, then an IPC segment with opcode 101. *)
Definition lateIpcFrame : Buffer :=
  frameBytes standardMagic 2 false
    (segmentBytes 7 [x09] ++ ipcBytes 101 [x01; x02; x03; x04; x05]).

(** An IPC segment whose opcode 999 is in no list. *)
Definition unknownOpcodeFrame : Buffer :=
  frameBytes standardMagic 1 false (ipcBytes 999 [x0a; x0b; x0c]).

(** An IPC segment with opcode 102, whose entry in [oddOpcodes] is empty,
    and one with opcode 103, whose entry is "ToString". *)
Definition emptyNameFrame : Buffer :=
  frameBytes standardMagic 1 false (ipcBytes 102 [x0a; x0b; x0c]).

Definition toStringFrame : Buffer :=
  frameBytes standardMagic 1 false (ipcBytes 103 [x0a; x0b; x0c]).

(** Compressed flag set; the body has a valid zlib header and a first block
    of the reserved type 3. *)
Definition badDeflateFrame : Buffer :=
  frameBytes standardMagic 0 true [x78; x9c; x07].

(** Compressed flag set; the body does not start with a zlib header. *)
Definition encryptedFrame : Buffer :=
  frameBytes standardMagic 1 true [xde; xad; xbe; xef].

(** One segment announced, no body. *)
Definition shortFrame : Buffer := frameBytes standardMagic 1 false [].

Definition noClock : nat -> Z * Z := fun _ => (0, 0)%Z.

Definition src : string := "203.0.113.7".
Definition dst : string := "192.0.2.10".

(** The body of a sample frame. *)
Definition bodyOf (frame : Buffer) : Buffer := Buffer_slice frame 40.

(** The segment of type 7 of [mixedFrame] and [lateIpcFrame], the IPC
    header of their IPC segment and its [ipcData]. *)
Definition plainHeader : SegmentHeader :=
  {| sh_size := 17; sh_sourceActor := 1; sh_targetActor := 2;
     sh_segmentType := 7; sh_padding := 0; sh_operation := receive |}.

Definition plainSegment : Segment :=
  {| header := plainHeader; ipcHeader := None; ipcData := None;
     parsedIpcData := None |}.

Definition inventoryHeader : SegmentHeader :=
  {| sh_size := 37; sh_sourceActor := 1; sh_targetActor := 2;
     sh_segmentType := 3; sh_padding := 0; sh_operation := receive |}.

Definition inventoryIpcHeader : IpcHeader :=
  {| ipc_reserved := 20; ipc_type := 101; ipc_serverId := 7; ipc_timestamp := 0 |}.

Definition inventoryData : Buffer := [x01; x02; x03; x04; x05; x00; x00; x00].

(** The same for the IPC segment of [npcSpawnFrame]. *)
Definition spawnHeader : SegmentHeader := inventoryHeader.

Definition spawnIpcHeader : IpcHeader :=
  {| ipc_reserved := 20; ipc_type := 100; ipc_serverId := 7; ipc_timestamp := 0 |}.

Definition spawnData : Buffer := [x01; x02; x03; x04; x05; x00; x00; x00].

(** Modelled from the spec: the reader of ./BufferReader.  Reads are
    little-endian at the cursor and zero-filled past the end; a string runs
    to the first zero byte and the cursor moves past that byte; a position
    is kept as the bit patterns of its three 32-bit floats. *)
Definition advance (reader : BufferReader) (width : N) : BufferReader :=
  {| br_buf := br_buf reader; br_offset := br_offset reader + width |}.

Definition unread (reader : BufferReader) : Buffer :=
  drop (N.to_nat (br_offset reader)) (br_buf reader).

Definition readLE (width : nat) (reader : BufferReader) : Outcome (N * BufferReader) :=
  Returned (le_value (take width (unread reader)), advance reader (N.of_nat width)).

Fixpoint cstring (bytes : Buffer) : string :=
  match bytes with
  | [] => EmptyString
  | b :: rest =>
      if Byte.eqb b x00 then EmptyString
      else String (ascii_of_byte b) (cstring rest)
  end.

Definition readString (reader : BufferReader) : Outcome (string * BufferReader) :=
  let s := cstring (unread reader) in
  Returned (s, advance reader (N.of_nat (String.length s) + 1)).

Definition readPosition3 (reader : BufferReader)
  : Outcome (N * N * N * BufferReader) :=
  let bytes := unread reader in
  Returned (le_value (take 4 bytes), le_value (take 4 (drop 4 bytes)),
            le_value (take 4 (drop 8 bytes)), advance reader 12).

#[export] Instance reader : BufferReaderOps :=
  {| Position3 := N * N * N;
     nextUInt8 := readLE 1; nextUInt16 := readLE 2; nextUInt32 := readLE 4;
     nextUInt64 := readLE 8; nextPosition3 := readPosition3;
     nextString := readString |}.

(** A zero-padded IPC body, and a desynthesis result: two unknown words,
    item 31337 of normal quality, result item 5057 of high quality, three
    of them. *)
Definition zeroBody : Buffer := replicate 512 x00.

Definition desynthBody : Buffer :=
  le_bytes 4 7 ++ le_bytes 4 9 ++ le_bytes 4 31337 ++ le_bytes 4 31337
    ++ le_bytes 4 1005057 ++ le_bytes 4 1005057 ++ le_bytes 4 3.

(** The zlib stream that stores [data] in one stored block. *)
Definition zlibStored (data : Buffer) : Buffer :=
  [x78; x01; x01] ++ le_bytes 2 (Buffer_length data)
    ++ le_bytes 2 (65535 - Buffer_length data) ++ data
    ++ rev (le_bytes 4 (adler32 data)).

(** [npcSpawnFrame] with its body sent as a zlib stream. *)
Definition compressedSpawnFrame : Buffer :=
  frameBytes standardMagic 1 true
    (zlibStored (ipcBytes 100 [x01; x02; x03; x04; x05])).

(** A segment header of type 7 that announces size 0, in a frame that
    announces three segments. *)
Definition emptySegmentFrame : Buffer :=
  frameBytes standardMagic 3 false
    (le_bytes 4 0 ++ le_bytes 4 1 ++ le_bytes 4 2 ++ le_bytes 2 7 ++ le_bytes 2 0).

Definition emptySegment : Segment :=
  {| header := {| sh_size := 0; sh_sourceActor := 1; sh_targetActor := 2;
                  sh_segmentType := 7; sh_padding := 0; sh_operation := receive |};
     ipcHeader := None; ipcData := None; parsedIpcData := None |}.

(** A magical frame header that announces size 0 and no segment. *)
Definition zeroSizeHeader : Buffer :=
  standardMagic ++ le_bytes 8 0 ++ le_bytes 4 0 ++ le_bytes 2 0 ++ le_bytes 2 0
    ++ le_bytes 8 0.

(** Forty bytes that do not start with a magic. *)
Definition strayBytes : Buffer := replicate 40 xff.

(** An instance whose queue for port 54992 holds [strayBytes]. *)
Definition blocked : CaptureInterface :=
  {| _bufTable := {[54992 := strayBytes]};
     _opcodeLists := _opcodeLists withConstants;
     _constants := _constants withConstants;
     _packetDefs := _packetDefs withConstants;
     _region := _region withConstants;
     _opcodes := _opcodes withConstants |}.

(** A captured packet for destination port 54992: IPv4, TCP, PSH and ACK
    set, 40 bytes of IP and TCP headers, then [data]. *)
Definition pshPacket (srcAddr : string) (srcPort : N) (data : Buffer) : Captured :=
  {| cap_payload := replicate 54 x00 ++ data;
     cap_decoded :=
       {| eth_is_ipv4 := true; ip_srcaddr := srcAddr; ip_dstaddr := dst;
          ip_is_tcp := true; ip_totallen := 40 + Z.of_nat (length data);
          ip_hdrlen := 20; tcp_hdrlen := 20; tcp_flags := 24;
          tcp_srcport := srcPort; tcp_dstport := 54992 |};
     cap_perf := noClock |}.

End Wire.

(** ** Statement vocabulary *)

Section Vocabulary.

Context `{Constants, FrameProcessing, Memory, Pako, Processors}.
Context `{!Builtins, QueueBufferModule}.

(** The events of one completed loop iteration: the message event, present
    when the iteration found a name, then the segment event. *)
Definition segmentEvents (typeName : option JsString) (seg : Segment) : list Event :=
  match typeName with
  | Some name => [EvMessage name seg; EvSegment seg]
  | None => [EvSegment seg]
  end.

(** The offsets at which consecutive segments start, from [offset] on. *)
Fixpoint offsets (offset : N) (segs : list Segment) : list N :=
  match segs with
  | [] => []
  | seg :: rest => offset :: offsets (offset + sh_size (header seg)) rest
  end.

Definition isSegmentEvent (e : Event) : bool :=
  match e with EvSegment _ => true | _ => false end.

Definition isPerSegmentEvent (e : Event) : bool :=
  match e with EvSegment _ | EvMessage _ _ => true | _ => false end.

Definition isErrorEvent (e : Event) : bool :=
  match e with EvError _ => true | _ => false end.

Definition isReadyEvent (e : Event) : bool :=
  match e with EvReady => true | _ => false end.

(** A complete magical frame: at least a header long, magical, and as long
    as its header says. *)
Definition completeFrame (frame : Buffer) : Prop :=
  FRAME_HEADER_SIZE <= Buffer_length frame
  /\ isMagical (parseFrameHeader (take (N.to_nat FRAME_HEADER_SIZE) frame)) = true
  /\ fh_size (parseFrameHeader (take (N.to_nat FRAME_HEADER_SIZE) frame)) = Buffer_length frame.

(** Bytes at which the reassembler stops: no header yet, a header that is
    not magical, or a frame that has not fully arrived. *)
Definition stalls (buf : QueueBuffer) : Prop :=
  match tryGetFrameHeader buf with
  | None => True
  | Some h => isMagical h = false \/ qb_size buf < fh_size h
  end.

(** The frame processor run on each frame of a list in turn, the [k]-th
    frame with the clock readings [perf k]. *)
Fixpoint frameRuns (this : CaptureInterface) (frames : list Buffer)
    (srcAddr dstAddr : string) (srcPort dstPort : N) (perf : nat -> Z * Z)
    (k : nat) : list (Run Event unit) :=
  match frames with
  | [] => []
  | frame :: rest =>
      _processFrame this
        (parseFrameHeader (take (N.to_nat FRAME_HEADER_SIZE) frame)) frame
        srcAddr dstAddr srcPort dstPort (perf k)
      :: frameRuns this rest srcAddr dstAddr srcPort dstPort perf (S k)
  end.

(** The two ways an iteration of the loop completes. *)
Inductive iteration (this : CaptureInterface) (remainder : Buffer) (offset : N)
  : Segment -> option JsString -> Prop :=
| iteration_plain sh :
    parseSegmentHeader (Buffer_slice remainder offset) = Returned sh ->
    ipcParts remainder offset sh = Returned None ->
    iteration this remainder offset
      {| header := sh; ipcHeader := None; ipcData := None; parsedIpcData := None |}
      None
| iteration_ipc sh ih data name parsed :
    parseSegmentHeader (Buffer_slice remainder offset) = Returned sh ->
    ipcParts remainder offset sh = Returned (Some (ih, data)) ->
    messageName this ih = Returned name ->
    unmarshal this name data = Returned parsed ->
    iteration this remainder offset
      {| header := sh; ipcHeader := Some ih; ipcData := Some data;
         parsedIpcData := parsed |}
      (Some name).

(** Consecutive completed iterations from [offset] on, each starting where
    the one before it ended. *)
Inductive iterations (this : CaptureInterface) (remainder : Buffer)
  : N -> list Segment -> list (option JsString) -> Prop :=
| iterations_nil offset : iterations this remainder offset [] []
| iterations_cons offset seg name segs names :
    iteration this remainder offset seg name ->
    iterations this remainder (offset + sh_size (header seg)) segs names ->
    iterations this remainder offset (seg :: segs) (name :: names).

Definition loopEvents (names : list (option JsString)) (segs : list Segment) : list Event :=
  concat (zip_with segmentEvents names segs).

(** The offset reached after the segments [segs], starting from [offset]. *)
Definition offsetAfter (offset : N) (segs : list Segment) : N :=
  foldl (fun o seg => o + sh_size (header seg)) offset segs.

(** The payloads of the two events that close a frame. *)
Definition packetOf (frameHeader : FrameHeader) (srcAddr dstAddr : string)
    (srcPort dstPort : N) (segs : list Segment) : Packet :=
  {| source := {| address := srcAddr; port := srcPort |};
     destination := {| address := dstAddr; port := dstPort |};
     childFrame := {| cf_header := frameHeader; segments := segs |} |}.

Definition diagnosticsOf (perf : Z * Z) : DiagnosticInfo :=
  {| lastProcessingTimeMs := (snd perf - fst perf)%Z |}.

(** The last entry of a list for an opcode. *)
Definition lastEntry (opcode : N) (entries : list OpcodeEntry) : option OpcodeEntry :=
  find (fun entry => oe_opcode entry =? opcode) (rev entries).

(** The list that [updateOpcodesCache] picks for a region: the first one
    carrying it. *)
Definition regionList (lists : list OpcodeList) (region : Region) : option OpcodeList :=
  find (fun ol => String.eqb (ol_region ol) region) lists.

(** The names under which an object literal finds a member of
    [Object.prototype]. *)
Definition inheritedNames : list JsString :=
  js <$> (objectPrototypeMethods ++ ["__proto__"]).

(** The listeners that have been called with "ready". *)
Definition readyDeliveries (i : Instance) : list nat :=
  fst <$> List.filter (fun d => isReadyEvent (snd d)) (delivered i).

(** How many times "ready" has been emitted. *)
Definition readyCount (i : Instance) : nat :=
  length (List.filter isReadyEvent (emissions i)).

Definition isConstantsSettled (x : Input) : bool :=
  match x with ConstantsSettled _ => true | _ => false end.

(** What the loading phase of an instance implies about the tables and the
    "ready" emissions so far. *)
Definition loadingInvariant (i : Instance) : Prop :=
  match loading i with
  | Loaded =>
      readyCount i = 1%nat
      /\ is_Some (_opcodeLists (this_ i)) /\ is_Some (_constants (this_ i))
  | LoadingConstants => readyCount i = 0%nat /\ is_Some (_opcodeLists (this_ i))
  | LoadingOpcodes | LoadRejected => readyCount i = 0%nat
  end.

End Vocabulary.

(** ** Further vocabulary *)

Section FurtherVocabulary.

Context `{Constants, FrameProcessing, Memory, Pako, Processors}.
Context `{!Builtins, QueueBufferModule}.

(** The segments carried by the segment events of a log, the packets of its
    packet events, and the segments of its message events. *)
Definition segmentsOf (evs : list Event) : list Segment :=
  omap (fun e => match e with EvSegment seg => Some seg | _ => None end) evs.

Definition packetsOf (evs : list Event) : list Packet :=
  omap (fun e => match e with EvPacket p => Some p | _ => None end) evs.

Definition messagesOf (evs : list Event) : list Segment :=
  omap (fun e => match e with EvMessage _ m => Some m | _ => None end) evs.

(** The segment records that an event hands to its listeners. *)
Definition eventSegments (e : Event) : list Segment :=
  match e with
  | EvMessage _ m => [m]
  | EvSegment seg => [seg]
  | EvPacket p => segments (childFrame p)
  | _ => []
  end.

(** A captured packet that the handler takes as data for [port]. *)
Definition dataFor (port : N) (p : Captured) : Prop :=
  eth_is_ipv4 (cap_decoded p) = true
  /\ ip_is_tcp (cap_decoded p) = true
  /\ Z.land (tcp_flags (cap_decoded p)) 8 <> 0%Z
  /\ tcp_dstport (cap_decoded p) = port.

Definition dataOf (p : Captured) : Buffer :=
  childFramePayload (cap_payload p) (cap_decoded p).

(** The opcode map that the loaded lists give for a region. *)
Definition regionTable (lists : list OpcodeList) (region : Region)
  : option (gmap N JsString) :=
  (fun ro => opcodeTable (ServerZoneIpcType ro ++ ClientZoneIpcType ro))
    <$> regionList lists region.

(** The listeners registered under an event name, in registration order. *)
Definition registered (name : EventName) (i : Instance) : list nat :=
  snd <$> List.filter (fun l => EventName_eqb (fst l) name) (listeners i).

End FurtherVocabulary.

Section DecoderVocabulary.

Context `{BufferReaderOps}.

(** A read that, when it returns, has moved the cursor by [width] bytes
    over the same buffer. *)
Definition advancesBy {A} (width : N) (read : Decode A) : Prop :=
  forall reader a reader',
    read reader = Returned (a, reader') ->
    br_buf reader' = br_buf reader /\ br_offset reader' = br_offset reader + width.

(** The fixed-width methods of the reader move the cursor by their width. *)
Definition fixedWidthReads : Prop :=
  advancesBy 1 nextUInt8 /\ advancesBy 2 nextUInt16 /\ advancesBy 4 nextUInt32
  /\ advancesBy 8 nextUInt64 /\ advancesBy 12 nextPosition3.

Definition isObjectOf (keys : list string) (v : Value) : Prop :=
  match v with
  | VObject properties => fst <$> properties = keys
  | _ => False
  end.

End DecoderVocabulary.

(** ** Properties of the emitting computation *)

Section RunLemmas.

Context {E A B : Type}.

Lemma run_eta (r : Run E A) : r = MkRun (emitted r) (outcome r).
Proof. destruct r; reflexivity. Qed.

Lemma run_bind_returned (m : Run E A) (k : A -> Run E B) a :
  outcome m = Returned a ->
  run_bind m k = MkRun (emitted m ++ emitted (k a)) (outcome (k a)).
Proof. intros Hm. unfold run_bind. rewrite Hm. reflexivity. Qed.

Lemma run_bind_thrown (m : Run E A) (k : A -> Run E B) e :
  outcome m = Thrown e -> run_bind m k = MkRun (emitted m) (Thrown e).
Proof. intros Hm. unfold run_bind. rewrite Hm. reflexivity. Qed.

Lemma run_bind_outcome_returned (m : Run E A) (k : A -> Run E B) b :
  outcome (run_bind m k) = Returned b ->
  exists a, outcome m = Returned a /\ outcome (k a) = Returned b.
Proof.
  unfold run_bind. destruct (outcome m) as [a|e] eqn:Hm; simpl; intros Hk.
  - exists a. split; [reflexivity | exact Hk].
  - discriminate.
Qed.

End RunLemmas.

(** ** The segment loop *)

Section SegmentLoop.

Context `{Constants, FrameProcessing, Memory, Pako, Processors}.
Context `{!Builtins, QueueBufferModule}.

Implicit Types (this : CaptureInterface) (remainder : Buffer) (offset : N).

Lemma ipcParts_some remainder offset sh ih data :
  ipcParts remainder offset sh = Returned (Some (ih, data)) ->
  sh_segmentType sh = SegmentType_Ipc.
Proof.
  unfold ipcParts. destruct (sh_segmentType sh =? SegmentType_Ipc) eqn:Hty.
  - intros _. apply N.eqb_eq. exact Hty.
  - discriminate.
Qed.

Lemma ipcParts_none remainder offset sh :
  ipcParts remainder offset sh = Returned None ->
  sh_segmentType sh <> SegmentType_Ipc.
Proof.
  unfold ipcParts. destruct (sh_segmentType sh =? SegmentType_Ipc) eqn:Hty.
  - destruct (parseIpcHeader _); [|discriminate].
    destruct (Buffer_alloc _); discriminate.
  - intros _. apply N.eqb_neq. exact Hty.
Qed.

Lemma processSegment_returned this remainder offset seg sz :
  outcome (processSegment this remainder offset) = Returned (seg, sz) ->
  exists name,
    iteration this remainder offset seg name
    /\ sz = sh_size (header seg)
    /\ emitted (processSegment this remainder offset) = segmentEvents name seg.
Proof.
  unfold processSegment, run_bind, call; simpl.
  destruct (parseSegmentHeader (Buffer_slice remainder offset)) as [sh|e] eqn:Hsh;
    simpl; [|discriminate].
  destruct (ipcParts remainder offset sh) as [[[ih data]|]|e] eqn:Hipc;
    simpl; [| |discriminate].
  - destruct (messageName this ih) as [name|e] eqn:Hname; simpl; [|discriminate].
    destruct (unmarshal this name data) as [parsed|e] eqn:Hdec; simpl; [|discriminate].
    intros [= <- <-]. exists (Some name). split; [|split; reflexivity].
    eapply iteration_ipc; eassumption.
  - intros [= <- <-]. exists None. split; [|split; reflexivity].
    eapply iteration_plain; eassumption.
Qed.

Lemma iteration_runs this remainder offset seg name :
  iteration this remainder offset seg name ->
  processSegment this remainder offset
  = MkRun (segmentEvents name seg) (Returned (seg, sh_size (header seg))).
Proof.
  intros [sh Hsh Hipc | sh ih data nm parsed Hsh Hipc Hname Hdec];
    unfold processSegment, run_bind, call; simpl;
    rewrite Hsh; simpl; rewrite Hipc; simpl.
  - reflexivity.
  - rewrite Hname; simpl. rewrite Hdec; simpl. reflexivity.
Qed.

(** An iteration that throws has emitted nothing. *)
Lemma processSegment_thrown this remainder offset e :
  outcome (processSegment this remainder offset) = Thrown e ->
  emitted (processSegment this remainder offset) = [].
Proof.
  unfold processSegment, run_bind, call; simpl.
  destruct (parseSegmentHeader (Buffer_slice remainder offset)) as [sh|e'];
    simpl; [|reflexivity].
  destruct (ipcParts remainder offset sh) as [[[ih data]|]|e'];
    simpl; [| discriminate | reflexivity].
  destruct (messageName this ih) as [name|e']; simpl; [|reflexivity].
  destruct (unmarshal this name data) as [parsed|e']; simpl; [discriminate|reflexivity].
Qed.

Lemma iteration_name_iff_ipc this remainder offset seg name :
  iteration this remainder offset seg name ->
  (is_Some name <-> sh_segmentType (header seg) = SegmentType_Ipc).
Proof.
  intros [sh Hsh Hipc | sh ih data nm parsed Hsh Hipc Hname Hdec]; simpl.
  - split.
    + intros [x Hx]; discriminate.
    + intros Hty. exfalso. eapply ipcParts_none; eassumption.
  - split.
    + intros _. eapply ipcParts_some; eassumption.
    + intros _. eexists; reflexivity.
Qed.

End SegmentLoop.

Section SegmentLoopRuns.

Context `{Constants, FrameProcessing, Memory, Pako, Processors}.
Context `{!Builtins, QueueBufferModule}.

Implicit Types (this : CaptureInterface) (remainder : Buffer) (offset : N).

Lemma loopEvents_cons name names seg segs :
  loopEvents (name :: names) (seg :: segs)
  = segmentEvents name seg ++ loopEvents names segs.
Proof. reflexivity. Qed.

Lemma iterations_length this remainder offset segs names :
  iterations this remainder offset segs names -> length names = length segs.
Proof. induction 1; simpl; congruence. Qed.

Lemma segmentLoop_returned this remainder n : forall offset acc result,
  outcome (segmentLoop this remainder n offset acc) = Returned result ->
  exists segs names,
    length segs = n /\ result = acc ++ segs
    /\ iterations this remainder offset segs names
    /\ emitted (segmentLoop this remainder n offset acc) = loopEvents names segs.
Proof.
  induction n as [|n IH]; intros offset acc result; simpl.
  - intros [= <-]. exists [], []. rewrite app_nil_r.
    repeat split; constructor.
  - intros Hout.
    destruct (run_bind_outcome_returned _ _ _ Hout) as ([seg sz] & Hseg & Hrest).
    destruct (processSegment_returned _ _ _ _ _ Hseg) as (name & Hit & -> & Hev).
    simpl in Hrest.
    destruct (IH _ _ _ Hrest) as (segs & names & Hlen & -> & Hits & Hevs).
    exists (seg :: segs), (name :: names).
    split; [simpl; congruence|]. split; [rewrite <- app_assoc; reflexivity|].
    split; [constructor; assumption|].
    rewrite (run_bind_returned _ _ _ Hseg). simpl.
    rewrite Hev, Hevs. reflexivity.
Qed.

(** The loop after [length segs] completed iterations goes on from the
    offset they reached. *)
Lemma segmentLoop_split this remainder m : forall segs names offset acc,
  iterations this remainder offset segs names ->
  segmentLoop this remainder (length segs + m) offset acc
  = let rest := segmentLoop this remainder m (offsetAfter offset segs) (acc ++ segs) in
    MkRun (loopEvents names segs ++ emitted rest) (outcome rest).
Proof.
  induction segs as [|seg segs IH]; intros names offset acc Hits;
    inversion Hits; subst; simpl.
  - rewrite app_nil_r. apply run_eta.
  - rewrite (run_bind_returned _ _ (seg, sh_size (header seg)))
      by (erewrite iteration_runs by eassumption; reflexivity).
    erewrite iteration_runs by eassumption. simpl.
    erewrite IH by eassumption. simpl.
    rewrite loopEvents_cons, <- !app_assoc. reflexivity.
Qed.

(** A loop that throws has completed some iterations and thrown in the next
    one, which emitted nothing. *)
Lemma segmentLoop_thrown this remainder n : forall offset acc e,
  outcome (segmentLoop this remainder n offset acc) = Thrown e ->
  exists segs names,
    (length segs < n)%nat
    /\ iterations this remainder offset segs names
    /\ outcome (processSegment this remainder (offsetAfter offset segs)) = Thrown e
    /\ emitted (segmentLoop this remainder n offset acc) = loopEvents names segs.
Proof.
  induction n as [|n IH]; intros offset acc e; simpl; [discriminate|].
  destruct (outcome (processSegment this remainder offset)) as [[seg sz]|e'] eqn:Hseg.
  - rewrite (run_bind_returned _ _ _ Hseg). simpl. intros Hout.
    destruct (processSegment_returned _ _ _ _ _ Hseg) as (name & Hit & -> & Hev).
    destruct (IH _ _ _ Hout) as (segs & names & Hlen & Hits & Hthrow & Hevs).
    exists (seg :: segs), (name :: names).
    split; [simpl; lia|]. split; [constructor; assumption|].
    split; [exact Hthrow|]. rewrite Hev, Hevs. reflexivity.
  - rewrite (run_bind_thrown _ _ _ Hseg). simpl. intros [= <-].
    exists [], []. split; [simpl; lia|]. split; [constructor|].
    split; [exact Hseg|]. apply processSegment_thrown with e'. exact Hseg.
Qed.

Lemma segmentEvents_perSegment name seg :
  forallb isPerSegmentEvent (segmentEvents name seg) = true.
Proof. destruct name; reflexivity. Qed.

Lemma loopEvents_perSegment : forall names segs,
  forallb isPerSegmentEvent (loopEvents names segs) = true.
Proof.
  induction names as [|name names IH]; intros [|seg segs]; try reflexivity.
  rewrite loopEvents_cons, forallb_app, segmentEvents_perSegment, IH. reflexivity.
Qed.

Lemma offsets_sorted : forall segs offset,
  StronglySorted N.le (offsets offset segs).
Proof.
  assert (Hge : forall segs offset o, In o (offsets offset segs) -> offset <= o).
  { induction segs as [|seg segs IH]; intros offset o; simpl; [tauto|].
    intros [<- | Hin]; [lia|]. apply IH in Hin. lia. }
  induction segs as [|seg segs IH]; intros offset; simpl; constructor.
  - apply IH.
  - apply List.Forall_forall. intros o Hin. apply Hge in Hin. lia.
Qed.

Lemma iterations_headers this remainder : forall segs names offset,
  iterations this remainder offset segs names ->
  Forall2 (fun o seg => parseSegmentHeader (Buffer_slice remainder o) = Returned (header seg))
    (offsets offset segs) segs.
Proof.
  induction segs as [|seg segs IH]; intros names offset Hits;
    inversion Hits as [|? ? ? ? ? Hit Hrest]; subst; simpl; constructor.
  - destruct Hit; assumption.
  - eapply IH; eassumption.
Qed.

Lemma iterations_names this remainder : forall segs names offset,
  iterations this remainder offset segs names ->
  Forall2 (fun name seg => is_Some name <-> sh_segmentType (header seg) = SegmentType_Ipc)
    names segs.
Proof.
  induction segs as [|seg segs IH]; intros names offset Hits;
    inversion Hits as [|? ? ? ? ? Hit Hrest]; subst; constructor.
  - eapply iteration_name_iff_ipc; eassumption.
  - eapply IH; eassumption.
Qed.

End SegmentLoopRuns.

(** ** The frame processor *)

Section FrameProcessor.

Context `{Constants, FrameProcessing, Memory, Pako, Processors}.
Context `{!Builtins, QueueBufferModule}.

Implicit Types (this : CaptureInterface) (frameHeader : FrameHeader)
  (buf remainder : Buffer) (srcAddr dstAddr : string) (srcPort dstPort : N)
  (perf : Z * Z).

(** A frame that is not dropped either runs every iteration and closes with
    the packet and diagnostics events, or stops at the iteration that
    throws. *)
Lemma processFrame_not_dropped this frameHeader buf srcAddr dstAddr srcPort dstPort perf remainder :
  decompress frameHeader (Buffer_slice buf FRAME_HEADER_SIZE) = Some remainder ->
  exists segs names,
    iterations this remainder 0 segs names
    /\ ((length segs = N.to_nat (fh_segmentCount frameHeader)
         /\ _processFrame this frameHeader buf srcAddr dstAddr srcPort dstPort perf
            = MkRun (loopEvents names segs
                     ++ [EvPacket (packetOf frameHeader srcAddr dstAddr srcPort dstPort segs);
                         EvDiagnostics (diagnosticsOf perf)])
                (Returned tt))
        \/ ((length segs < N.to_nat (fh_segmentCount frameHeader))%nat
            /\ exists e,
                 outcome (processSegment this remainder (offsetAfter 0 segs)) = Thrown e
                 /\ _processFrame this frameHeader buf srcAddr dstAddr srcPort dstPort perf
                    = MkRun (loopEvents names segs) (Thrown e))).
Proof.
  intros Hrem. unfold _processFrame. rewrite Hrem.
  destruct (outcome (segmentLoop this remainder
              (N.to_nat (fh_segmentCount frameHeader)) 0 [])) as [segs|e] eqn:Hloop.
  - destruct (segmentLoop_returned _ _ _ _ _ _ Hloop)
      as (segs' & names & Hlen & -> & Hits & Hevs).
    exists segs', names. split; [exact Hits|]. left. split; [exact Hlen|].
    rewrite (run_bind_returned _ _ _ Hloop). rewrite Hevs. reflexivity.
  - destruct (segmentLoop_thrown _ _ _ _ _ _ Hloop)
      as (segs & names & Hlen & Hits & Hthrow & Hevs).
    exists segs, names. split; [exact Hits|]. right. split; [exact Hlen|].
    exists e. split; [exact Hthrow|].
    rewrite (run_bind_thrown _ _ _ Hloop). rewrite Hevs. reflexivity.
Qed.

Lemma decompress_none frameHeader remainder :
  decompress frameHeader remainder = None <->
  fh_isCompressed frameHeader = true
  /\ pako_inflate remainder = inl "incorrect header check".
Proof.
  unfold decompress. destruct (fh_isCompressed frameHeader).
  - destruct (pako_inflate remainder) as [err|out].
    + destruct (String.eqb_spec err "incorrect header check") as [->|Hne].
      * tauto.
      * split; [discriminate|]. intros [_ [= Herr]]. contradiction.
    + split; [discriminate|]. intros [_ [=]].
  - split; [discriminate|]. intros [[=] _].
Qed.

Lemma perSegment_not_error (evs : list Event) :
  forallb isPerSegmentEvent evs = true ->
  forallb (fun e => negb (isErrorEvent e)) evs = true.
Proof.
  rewrite !forallb_forall. intros Hall e Hin. specialize (Hall e Hin).
  destruct e; try discriminate; reflexivity.
Qed.

(** The frame processor never emits an error event. *)
Lemma processFrame_no_error_event this frameHeader buf srcAddr dstAddr srcPort dstPort perf :
  forallb (fun e => negb (isErrorEvent e))
    (emitted (_processFrame this frameHeader buf srcAddr dstAddr srcPort dstPort perf)) = true.
Proof.
  destruct (decompress frameHeader (Buffer_slice buf FRAME_HEADER_SIZE))
    as [remainder|] eqn:Hrem.
  - destruct (processFrame_not_dropped this frameHeader buf srcAddr dstAddr
                srcPort dstPort perf remainder Hrem)
      as (segs & names & _ & [[_ ->] | [_ (e & _ & ->)]]); simpl.
    + rewrite forallb_app, perSegment_not_error by apply loopEvents_perSegment.
      reflexivity.
    + apply perSegment_not_error, loopEvents_perSegment.
  - unfold _processFrame. rewrite Hrem. reflexivity.
Qed.

(** C3: a frame with [isCompressed] set whose body inflate rejects with
    "incorrect header check" is dropped silently: the processor returns
    having emitted nothing, so no segment, packet or error event. *)
Theorem C3_encrypted_frame_dropped_silently
    this frameHeader buf srcAddr dstAddr srcPort dstPort perf :
  fh_isCompressed frameHeader = true ->
  pako_inflate (Buffer_slice buf FRAME_HEADER_SIZE) = inl "incorrect header check" ->
  _processFrame this frameHeader buf srcAddr dstAddr srcPort dstPort perf
  = MkRun [] (Returned tt).
Proof.
  intros Hc Herr. unfold _processFrame.
  replace (decompress frameHeader (Buffer_slice buf FRAME_HEADER_SIZE)) with (@None Buffer).
  - reflexivity.
  - symmetry. apply decompress_none. split; assumption.
Qed.

(** C1, as amended: when inflate fails with an error other than "incorrect
    header check" the catch block falls through with the body unchanged.
    No error event is emitted and the frame is not dropped: the segment
    loop runs over the un-inflated body and, when every iteration returns,
    the packet and diagnostics events close the frame. *)
Theorem C1_inflate_failure_falls_through
    this frameHeader buf srcAddr dstAddr srcPort dstPort perf err :
  fh_isCompressed frameHeader = true ->
  pako_inflate (Buffer_slice buf FRAME_HEADER_SIZE) = inl err ->
  err <> "incorrect header check" ->
  let body := Buffer_slice buf FRAME_HEADER_SIZE in
  let r := _processFrame this frameHeader buf srcAddr dstAddr srcPort dstPort perf in
  decompress frameHeader body = Some body
  /\ forallb (fun e => negb (isErrorEvent e)) (emitted r) = true
  /\ (outcome r = Returned tt ->
      exists segs names,
        iterations this body 0 segs names
        /\ length segs = N.to_nat (fh_segmentCount frameHeader)
        /\ emitted r
           = loopEvents names segs
             ++ [EvPacket (packetOf frameHeader srcAddr dstAddr srcPort dstPort segs);
                 EvDiagnostics (diagnosticsOf perf)]).
Proof.
  intros Hc Hinf Hne body r.
  assert (Hbody : decompress frameHeader body = Some body).
  { unfold decompress, body. rewrite Hc, Hinf.
    destruct (String.eqb_spec err "incorrect header check"); [contradiction|reflexivity]. }
  split; [exact Hbody|]. split; [apply processFrame_no_error_event|].
  intros Hret.
  destruct (processFrame_not_dropped this frameHeader buf srcAddr dstAddr
              srcPort dstPort perf body Hbody)
    as (segs & names & Hits & [[Hlen Hrun] | [_ (e & _ & Hrun)]]);
    subst r; rewrite Hrun in *; simpl in *.
  - exists segs, names. repeat split; assumption.
  - discriminate.
Qed.

(** C2, as amended: the frame processor does not catch a decoder's
    exception.  When the decoder of an IPC segment throws, the exception
    leaves [_processFrame]; what has been emitted are the message and
    segment events of the segments before it, and nothing else: no error
    event, no message or segment event for that segment, and no packet or
    diagnostics event for the frame. *)
Theorem C2_decoder_exception_propagates
    this frameHeader buf srcAddr dstAddr srcPort dstPort perf
    remainder segs names sh ih data name decode constants e :
  decompress frameHeader (Buffer_slice buf FRAME_HEADER_SIZE) = Some remainder ->
  iterations this remainder 0 segs names ->
  (length segs < N.to_nat (fh_segmentCount frameHeader))%nat ->
  parseSegmentHeader (Buffer_slice remainder (offsetAfter 0 segs)) = Returned sh ->
  ipcParts remainder (offsetAfter 0 segs) sh = Returned (Some (ih, data)) ->
  messageName this ih = Returned name ->
  _packetDefs this !! name = Some decode ->
  _constants this = Some constants ->
  decode (new_BufferReader data) (constants !! _region this) = Thrown e ->
  _processFrame this frameHeader buf srcAddr dstAddr srcPort dstPort perf
  = MkRun (loopEvents names segs) (Thrown e)
  /\ forallb isPerSegmentEvent (loopEvents names segs) = true.
Proof.
  intros Hrem Hits Hlen Hsh Hipc Hname Hreg Hconst Hdec.
  split; [|apply loopEvents_perSegment].
  assert (Hthrow : processSegment this remainder (offsetAfter 0 segs)
                   = MkRun [] (Thrown e)).
  { unfold processSegment, run_bind, call; simpl.
    rewrite Hsh; simpl. rewrite Hipc; simpl. rewrite Hname; simpl.
    unfold unmarshal, getMember, PacketProcessor in *.
    rewrite Hreg, Hconst. simpl. rewrite Hdec. reflexivity. }
  unfold _processFrame. rewrite Hrem.
  replace (N.to_nat (fh_segmentCount frameHeader))
    with (length segs + S (N.to_nat (fh_segmentCount frameHeader) - S (length segs)))%nat
    by lia.
  rewrite (segmentLoop_split _ _ _ _ _ _ _ Hits). simpl.
  rewrite Hthrow. unfold run_bind; simpl. rewrite app_nil_r. reflexivity.
Qed.

(** C4: a frame that the processor completes emits, for each segment in
    turn, its message event (present exactly when the segment is IPC)
    immediately followed by its segment event, the segments being those
    parsed at increasing offsets of the body; then one packet event; then
    one diagnostics event. *)
Theorem C4_event_order
    this frameHeader buf srcAddr dstAddr srcPort dstPort perf remainder :
  decompress frameHeader (Buffer_slice buf FRAME_HEADER_SIZE) = Some remainder ->
  outcome (_processFrame this frameHeader buf srcAddr dstAddr srcPort dstPort perf)
  = Returned tt ->
  exists segs names,
    length segs = N.to_nat (fh_segmentCount frameHeader)
    /\ emitted (_processFrame this frameHeader buf srcAddr dstAddr srcPort dstPort perf)
       = concat (zip_with segmentEvents names segs)
         ++ [EvPacket (packetOf frameHeader srcAddr dstAddr srcPort dstPort segs);
             EvDiagnostics (diagnosticsOf perf)]
    /\ Forall2 (fun name seg =>
                  is_Some name <-> sh_segmentType (header seg) = SegmentType_Ipc)
         names segs
    /\ Forall2 (fun o seg =>
                  parseSegmentHeader (Buffer_slice remainder o) = Returned (header seg))
         (offsets 0 segs) segs
    /\ StronglySorted N.le (offsets 0 segs).
Proof.
  intros Hrem Hret.
  destruct (processFrame_not_dropped this frameHeader buf srcAddr dstAddr
              srcPort dstPort perf remainder Hrem)
    as (segs & names & Hits & [[Hlen Hrun] | [_ (e & _ & Hrun)]]);
    rewrite Hrun in *; simpl in *; [|discriminate].
  exists segs, names. split; [exact Hlen|]. split; [reflexivity|].
  split; [eapply iterations_names; eassumption|].
  split; [eapply iterations_headers; eassumption|].
  apply offsets_sorted.
Qed.


Lemma registry_keys_fmap {B} (f : string -> B) (names : list string) :
  ((fun name => (js name, f name)) <$> names).*1 = js <$> names.
Proof. rewrite <- list_fmap_compose. reflexivity. Qed.

(** The registry has no own entry under a name outside its literal. *)
Lemma registry_lookup_none typeName :
  typeName ∉ js <$> processorNames -> loadPacketProcessors !! typeName = None.
Proof.
  intros Hnot. unfold loadPacketProcessors. apply not_elem_of_list_to_map_1.
  rewrite registry_keys_fmap. exact Hnot.
Qed.

(** Nothing is found under the name "unknown". *)
Lemma getMember_unknown : getMember loadPacketProcessors (js "unknown") = None.
Proof.
  unfold getMember.
  rewrite registry_lookup_none; [reflexivity|].
  apply (bool_decide_eq_false_1 _). vm_compute. reflexivity.
Qed.

(** A name that is not inherited finds an own entry or nothing. *)
Lemma getMember_not_inherited (defs : gmap JsString PacketProcessor) typeName :
  typeName ∉ inheritedNames ->
  getMember defs typeName = OwnDecoder <$> defs !! typeName.
Proof.
  intros Hnot. unfold getMember.
  destruct (defs !! typeName) as [decode|]; [reflexivity|].
  match goal with
  | |- context [find ?f objectPrototypeMethods] =>
      destruct (find f objectPrototypeMethods) as [name|] eqn:Hfind
  end.
  - exfalso. apply Hnot. apply find_some in Hfind. destruct Hfind as [Hin Heq].
    apply bool_decide_eq_true_1 in Heq. subst typeName.
    unfold inheritedNames. apply list_elem_of_fmap. exists name. split; [reflexivity|].
    apply elem_of_app. left. apply list_elem_of_In. exact Hin.
  - destruct (bool_decide_reflect (typeName = js "__proto__")) as [->|_]; [|reflexivity].
    exfalso. apply Hnot. unfold inheritedNames.
    apply list_elem_of_fmap. exists "__proto__". split; [reflexivity|].
    apply elem_of_app. right. apply list_elem_of_singleton. reflexivity.
Qed.

Lemma unmarshal_own this name data decode constants :
  _packetDefs this !! name = Some decode ->
  _constants this = Some constants ->
  unmarshal this name data
  = match decode (new_BufferReader data) (constants !! _region this) with
    | Returned parsed => Returned (Some parsed)
    | Thrown e => Thrown e
    end.
Proof.
  intros Hown Hconst. unfold unmarshal, getMember, PacketProcessor in *.
  rewrite Hown, Hconst. reflexivity.
Qed.

(** Without constants nothing is called. *)
Lemma unmarshal_without_constants this name data :
  _constants this = None -> unmarshal this name data = Returned None.
Proof.
  intros Hconst. unfold unmarshal. rewrite Hconst.
  destruct (getMember _ _); reflexivity.
Qed.

(** The name that lines 218-219 compute from an opcode map. *)
Lemma messageName_entry this ih opcodes :
  _opcodes this = Some opcodes ->
  messageName this ih
  = Returned match opcodes !! ipc_type ih with
             | Some (c :: rest) => toLowerCase c ++ rest
             | Some [] | None => js "unknown"
             end.
Proof.
  intros Hops. unfold messageName. rewrite Hops.
  destruct (opcodes !! ipc_type ih) as [[|c rest]|]; reflexivity.
Qed.

(** C6, as amended: for an IPC segment processed with an opcode map in
    place, the name of the message is the map's entry for the header's
    opcode with its first code unit lowered, and the literal "unknown" when
    the map has no entry for the opcode or an empty one.  The iteration
    then emits the message event under that name and the segment event,
    both with the raw [ipcData] and with what the lookup in the registry
    stored in [parsedIpcData], unless the call made there throws, which
    ends the iteration with nothing emitted.  Under the name "unknown" the
    registry built by [loadPacketProcessors] finds nothing, so
    [parsedIpcData] is undefined.  For a name that [Object.prototype] does
    not define, a decoder runs exactly when the registry has an entry for
    the name and the constants are loaded, and it is that entry, run on a
    new reader over [ipcData] with the constants of the region.  With the
    opcode map undefined the lookup of the name throws a [TypeError] and
    the iteration ends with nothing emitted. *)
Theorem C6_message_name this remainder offset sh ih data :
  parseSegmentHeader (Buffer_slice remainder offset) = Returned sh ->
  ipcParts remainder offset sh = Returned (Some (ih, data)) ->
  let r := processSegment this remainder offset in
  let segment parsed :=
    {| header := sh; ipcHeader := Some ih; ipcData := Some data;
       parsedIpcData := parsed |} in
  match _opcodes this with
  | None =>
      messageName this ih = Thrown (TypeError "Cannot read properties of undefined")
      /\ r = MkRun [] (Thrown (TypeError "Cannot read properties of undefined"))
  | Some opcodes =>
      let name :=
        match opcodes !! ipc_type ih with
        | Some (c :: rest) => toLowerCase c ++ rest
        | Some [] | None => js "unknown"
        end in
      messageName this ih = Returned name
      /\ match unmarshal this name data with
         | Returned parsed =>
             r = MkRun [EvMessage name (segment parsed); EvSegment (segment parsed)]
                   (Returned (segment parsed, sh_size sh))
         | Thrown e => r = MkRun [] (Thrown e)
         end
      /\ (opcodes !! ipc_type ih = None \/ opcodes !! ipc_type ih = Some [] ->
          _packetDefs this = loadPacketProcessors ->
          r = MkRun [EvMessage (js "unknown") (segment None); EvSegment (segment None)]
                (Returned (segment None, sh_size sh)))
      /\ match _packetDefs this !! name, _constants this with
         | Some decode, Some constants =>
             unmarshal this name data
             = match decode (new_BufferReader data) (constants !! _region this) with
               | Returned parsed => Returned (Some parsed)
               | Thrown e => Thrown e
               end
         | None, Some _ =>
             name ∉ inheritedNames -> unmarshal this name data = Returned None
         | _, None => unmarshal this name data = Returned None
         end
  end.
Proof.
  intros Hsh Hipc r segment.
  destruct (_opcodes this) as [opcodes|] eqn:Hops.
  2:{ assert (Hname : messageName this ih
                      = Thrown (TypeError "Cannot read properties of undefined"))
        by (unfold messageName; rewrite Hops; reflexivity).
      split; [exact Hname|].
      subst r. unfold processSegment, run_bind, call; simpl.
      rewrite Hsh; simpl. rewrite Hipc; simpl. rewrite Hname. reflexivity. }
  intros name.
  pose proof (messageName_entry this ih opcodes Hops) as Hname. fold name in Hname.
  assert (Hrun : forall parsed,
            unmarshal this name data = Returned parsed ->
            r = MkRun [EvMessage name (segment parsed); EvSegment (segment parsed)]
                  (Returned (segment parsed, sh_size sh))).
  { intros parsed Hdec. subst r. unfold processSegment, run_bind, call; simpl.
    rewrite Hsh; simpl. rewrite Hipc; simpl. rewrite Hname; simpl.
    rewrite Hdec. reflexivity. }
  split; [exact Hname|]. split; [|split].
  - destruct (unmarshal this name data) as [parsed|e] eqn:Hdec.
    + apply Hrun. reflexivity.
    + subst r. unfold processSegment, run_bind, call; simpl.
      rewrite Hsh; simpl. rewrite Hipc; simpl. rewrite Hname; simpl.
      rewrite Hdec. reflexivity.
  - intros Hentry Hreg.
    assert (Hunknown : name = js "unknown")
      by (subst name; unfold JsString, CodeUnit in *;
          destruct Hentry as [-> | ->]; reflexivity).
    clearbody name. subst name. apply Hrun.
    unfold unmarshal. rewrite Hreg, getMember_unknown. reflexivity.
  - destruct (_packetDefs this !! name) as [decode|] eqn:Hown;
      destruct (_constants this) as [constants|] eqn:Hconst.
    + apply unmarshal_own; assumption.
    + apply unmarshal_without_constants. exact Hconst.
    + intros Hnot. unfold unmarshal.
      pose proof (getMember_not_inherited (_packetDefs this) name Hnot) as Hget.
      unfold PacketProcessor in *. rewrite Hown in Hget. rewrite Hget. reflexivity.
    + apply unmarshal_without_constants. exact Hconst.
Qed.

Lemma loopEvents_segment_count : forall names segs,
  length names = length segs ->
  length (List.filter isSegmentEvent (loopEvents names segs)) = length segs.
Proof.
  induction names as [|name names IH]; intros [|seg segs]; simpl; try discriminate.
  - reflexivity.
  - intros [= Hlen]. rewrite loopEvents_cons, List.filter_app, length_app, IH by exact Hlen.
    destruct name; reflexivity.
Qed.

(** With a segment announced, the first iteration runs whatever the body
    holds: it throws or it emits a segment event. *)
Lemma first_iteration_runs
    this frameHeader buf srcAddr dstAddr srcPort dstPort perf remainder :
  decompress frameHeader (Buffer_slice buf FRAME_HEADER_SIZE) = Some remainder ->
  fh_segmentCount frameHeader <> 0 ->
  let r := _processFrame this frameHeader buf srcAddr dstAddr srcPort dstPort perf in
  (exists e, outcome r = Thrown e) \/ (exists seg, In (EvSegment seg) (emitted r)).
Proof.
  intros Hrem Hcount r.
  destruct (processFrame_not_dropped this frameHeader buf srcAddr dstAddr
              srcPort dstPort perf remainder Hrem)
    as (segs & names & Hits & [[Hlen Hrun] | [_ (e & _ & Hrun)]]);
    subst r; rewrite Hrun; simpl.
  - right. inversion Hits as [|? seg name segs' names' Hit Hits']; subst;
      simpl in Hlen; [lia|].
    exists seg. rewrite loopEvents_cons. apply in_or_app. left. apply in_or_app. left.
    destruct name; simpl; tauto.
  - left. exists e. reflexivity.
Qed.


(** C10: when [setRegion] is called with a region that none of the loaded
    opcode lists carries, or before any list has loaded, the opcode map
    becomes undefined; the next IPC segment then throws a [TypeError] on the
    opcode lookup, having emitted nothing, instead of being named
    "unknown". *)
Theorem C10_missing_region_breaks_lookup this region :
  (_opcodeLists this = None
   \/ exists lists, _opcodeLists this = Some lists
                    /\ Forall (fun ol => ol_region ol <> region) lists) ->
  _opcodes (setRegion region this) = None
  /\ (forall remainder offset sh ih data,
        parseSegmentHeader (Buffer_slice remainder offset) = Returned sh ->
        ipcParts remainder offset sh = Returned (Some (ih, data)) ->
        processSegment (setRegion region this) remainder offset
        = MkRun [] (Thrown (TypeError "Cannot read properties of undefined")))
  /\ (forall frameHeader buf srcAddr dstAddr srcPort dstPort perf remainder sh ih data,
        decompress frameHeader (Buffer_slice buf FRAME_HEADER_SIZE) = Some remainder ->
        fh_segmentCount frameHeader <> 0 ->
        parseSegmentHeader (Buffer_slice remainder 0) = Returned sh ->
        ipcParts remainder 0 sh = Returned (Some (ih, data)) ->
        _processFrame (setRegion region this) frameHeader buf
          srcAddr dstAddr srcPort dstPort perf
        = MkRun [] (Thrown (TypeError "Cannot read properties of undefined"))).
Proof.
  intros Hlists.
  assert (Hnone : _opcodes (setRegion region this) = None).
  { unfold setRegion, updateOpcodesCache; simpl.
    destruct Hlists as [-> | (lists & -> & Hall)]; [reflexivity|].
    replace (find _ lists) with (@None OpcodeList); [reflexivity|].
    symmetry. induction Hall as [|ol lists Hol _ IH]; simpl; [reflexivity|].
    destruct (String.eqb_spec (ol_region ol) region); [contradiction | exact IH]. }
  assert (Hseg : forall remainder offset sh ih data,
            parseSegmentHeader (Buffer_slice remainder offset) = Returned sh ->
            ipcParts remainder offset sh = Returned (Some (ih, data)) ->
            processSegment (setRegion region this) remainder offset
            = MkRun [] (Thrown (TypeError "Cannot read properties of undefined"))).
  { intros remainder offset sh ih data Hsh Hipc.
    unfold processSegment, run_bind, call; simpl.
    rewrite Hsh; simpl. rewrite Hipc; simpl.
    unfold messageName. rewrite Hnone. reflexivity. }
  split; [exact Hnone|]. split; [exact Hseg|].
  intros frameHeader buf srcAddr dstAddr srcPort dstPort perf remainder sh ih data
    Hrem Hcount Hsh Hipc.
  unfold _processFrame. rewrite Hrem.
  destruct (N.to_nat (fh_segmentCount frameHeader)) as [|n] eqn:Hn; [lia|].
  simpl. rewrite (Hseg _ _ _ _ _ Hsh Hipc). reflexivity.
Qed.

End FrameProcessor.

(** ** The reassembler *)

Section Reassembler.

Context `{Constants, FrameProcessing, Memory, Pako, Processors}.
Context `{!Builtins, QueueBufferModule}.

Implicit Types (this : CaptureInterface) (buf rest frame : Buffer)
  (frames : list Buffer) (srcAddr dstAddr : string) (srcPort dstPort : N)
  (perf : nat -> Z * Z).

Lemma tryGetFrameHeader_short buf :
  qb_size buf < FRAME_HEADER_SIZE -> tryGetFrameHeader buf = None.
Proof.
  intros Hlt. unfold tryGetFrameHeader, qb_peek.
  apply N.ltb_lt in Hlt. rewrite Hlt. reflexivity.
Qed.

Lemma tryGetFrameHeader_frame frame rest :
  FRAME_HEADER_SIZE <= Buffer_length frame ->
  tryGetFrameHeader (frame ++ rest)
  = Some (parseFrameHeader (take (N.to_nat FRAME_HEADER_SIZE) frame)).
Proof.
  intros Hle. unfold tryGetFrameHeader, qb_peek, qb_size, Buffer_length in *.
  rewrite length_app.
  destruct (N.ltb_spec (N.of_nat (length frame + length rest)) FRAME_HEADER_SIZE);
    [lia|].
  simpl. rewrite take_app_le by lia. reflexivity.
Qed.

(** One evaluation of the loop condition on a buffer that stalls. *)
Lemma reassemble_stalls fuel this buf srcAddr dstAddr srcPort dstPort perf k :
  stalls buf ->
  reassemble (S fuel) this buf srcAddr dstAddr srcPort dstPort perf k
  = Some (buf, run_ret tt).
Proof.
  unfold stalls. simpl.
  destruct (tryGetFrameHeader buf) as [h|]; [|reflexivity].
  intros [-> | Hlt]; [reflexivity|].
  apply N.leb_gt in Hlt. rewrite Hlt, andb_false_r. reflexivity.
Qed.

(** One turn of the loop on a buffer that holds a whole magical frame. *)
Lemma reassemble_turn fuel this buf srcAddr dstAddr srcPort dstPort perf k h :
  tryGetFrameHeader buf = Some h ->
  isMagical h = true ->
  fh_size h <= qb_size buf ->
  reassemble (S fuel) this buf srcAddr dstAddr srcPort dstPort perf k
  = let r := _processFrame this h (take (N.to_nat (fh_size h)) buf)
               srcAddr dstAddr srcPort dstPort (perf k) in
    match outcome r with
    | Thrown e => Some (drop (N.to_nat (fh_size h)) buf, r)
    | Returned _ =>
        match reassemble fuel this (drop (N.to_nat (fh_size h)) buf)
                srcAddr dstAddr srcPort dstPort perf (S k) with
        | Some (buf', r') => Some (buf', MkRun (emitted r ++ emitted r') (outcome r'))
        | None => None
        end
    end.
Proof.
  intros Hh Hm Hle. simpl. rewrite Hh, Hm.
  apply N.leb_le in Hle. rewrite Hle. reflexivity.
Qed.

Lemma reassemble_drains this srcAddr dstAddr srcPort dstPort perf rest :
  stalls rest ->
  forall frames k,
    Forall completeFrame frames ->
    Forall (fun r => outcome r = Returned tt)
      (frameRuns this frames srcAddr dstAddr srcPort dstPort perf k) ->
    reassemble (S (length frames)) this (concat frames ++ rest)
      srcAddr dstAddr srcPort dstPort perf k
    = Some (rest,
            MkRun (concat (emitted <$> frameRuns this frames srcAddr dstAddr
                                         srcPort dstPort perf k))
              (Returned tt)).
Proof.
  intros Hrest. induction frames as [|frame frames IH]; intros k Hframes Hruns.
  - simpl concat. rewrite app_nil_l. apply reassemble_stalls. exact Hrest.
  - apply Forall_cons_1 in Hframes. destruct Hframes as [(Hlen & Hmagic & Hsize) Hframes].
    simpl in Hruns. apply Forall_cons_1 in Hruns. destruct Hruns as [Hrun Hruns].
    change (concat (frame :: frames)) with (frame ++ concat frames).
    rewrite <- app_assoc.
    assert (Hn : N.to_nat (fh_size (parseFrameHeader
                   (take (N.to_nat FRAME_HEADER_SIZE) frame))) = length frame)
      by (rewrite Hsize; unfold Buffer_length; lia).
    change (length (frame :: frames)) with (S (length frames)).
    rewrite (reassemble_turn _ _ _ _ _ _ _ _ _ _
               (tryGetFrameHeader_frame frame _ Hlen) Hmagic).
    + cbv zeta. rewrite Hn, take_app_length, drop_app_length.
      rewrite Hrun. rewrite (IH (S k) Hframes Hruns). reflexivity.
    + rewrite Hsize. unfold qb_size, Buffer_length. rewrite length_app. lia.
Qed.

(** The loop ends at the first frame whose processing throws: the frames
    before it have been processed, that frame has been popped, and what
    follows it stays in the queue. *)
Lemma reassemble_throws this srcAddr dstAddr srcPort dstPort perf frame later e fuel :
  forall done k,
    Forall completeFrame (done ++ [frame]) ->
    Forall (fun r => outcome r = Returned tt)
      (frameRuns this done srcAddr dstAddr srcPort dstPort perf k) ->
    outcome (_processFrame this
               (parseFrameHeader (take (N.to_nat FRAME_HEADER_SIZE) frame)) frame
               srcAddr dstAddr srcPort dstPort (perf (length done + k)%nat))
    = Thrown e ->
    reassemble (S (length done + fuel)) this (concat (done ++ [frame]) ++ later)
      srcAddr dstAddr srcPort dstPort perf k
    = Some (later,
            MkRun (concat (emitted <$> frameRuns this (done ++ [frame]) srcAddr dstAddr
                                         srcPort dstPort perf k))
              (Thrown e)).
Proof.
  assert (Hturn : forall f tail k n,
            completeFrame f ->
            reassemble (S n) this (f ++ tail) srcAddr dstAddr srcPort dstPort perf k
            = let r := _processFrame this
                         (parseFrameHeader (take (N.to_nat FRAME_HEADER_SIZE) f)) f
                         srcAddr dstAddr srcPort dstPort (perf k) in
              match outcome r with
              | Thrown e' => Some (tail, r)
              | Returned _ =>
                  match reassemble n this tail srcAddr dstAddr srcPort dstPort perf (S k) with
                  | Some (buf', r') => Some (buf', MkRun (emitted r ++ emitted r') (outcome r'))
                  | None => None
                  end
              end).
  { intros f tail k n (Hlen & Hmagic & Hsize).
    assert (Hn : N.to_nat (fh_size (parseFrameHeader
                   (take (N.to_nat FRAME_HEADER_SIZE) f))) = length f)
      by (rewrite Hsize; unfold Buffer_length; lia).
    rewrite (reassemble_turn _ _ _ _ _ _ _ _ _ _
               (tryGetFrameHeader_frame f _ Hlen) Hmagic).
    - cbv zeta. rewrite Hn, take_app_length, drop_app_length. reflexivity.
    - rewrite Hsize. unfold qb_size, Buffer_length. rewrite length_app. lia. }
  induction done as [|first done IH]; intros k Hframes Hruns Hthrow.
  - simpl in Hframes. apply Forall_cons_1 in Hframes. destruct Hframes as [Hframe _].
    simpl concat. rewrite app_nil_r.
    change (length [] + fuel)%nat with fuel. rewrite (Hturn _ _ _ _ Hframe).
    cbv zeta. simpl in Hthrow. rewrite Hthrow. simpl. rewrite app_nil_r.
    rewrite <- Hthrow. rewrite <- run_eta. reflexivity.
  - simpl in Hframes. apply Forall_cons_1 in Hframes. destruct Hframes as [Hfirst Hframes].
    simpl in Hruns. apply Forall_cons_1 in Hruns. destruct Hruns as [Hrun Hruns].
    change (concat ((first :: done) ++ [frame])) with (first ++ concat (done ++ [frame])).
    rewrite <- app_assoc.
    change (S (length (first :: done) + fuel)) with (S (S (length done + fuel))).
    rewrite (Hturn _ _ _ _ Hfirst). cbv zeta. rewrite Hrun.
    rewrite (IH (S k) Hframes Hruns).
    + reflexivity.
    + replace (length done + S k)%nat with (length (first :: done) + k)%nat
        by (simpl; lia).
      exact Hthrow.
Qed.

(** C7, as amended: after a push the reassembler loops on the flow's queue.
    It leaves the loop, consuming nothing and raising nothing, when fewer
    than FRAME_HEADER_SIZE bytes are buffered, when the peeked header is not
    magical, and when fewer than [header.size] bytes are buffered;
    otherwise it pops exactly [header.size] bytes, processes them as one
    frame and, when the processing returns, goes round again.  So a queue
    holding complete magical frames back to back, followed by bytes on
    which the loop stalls, is drained of all of them in arrival order,
    leaving those bytes, as long as the processing of each frame returns.
    An exception of the processing of a frame leaves the loop: the frames
    before it have been processed in arrival order, the frame itself has
    been popped, and the frames after it stay in the queue. *)
Theorem C7_reassembler_drains this srcAddr dstAddr srcPort dstPort perf :
  (forall fuel buf k,
      qb_size buf < FRAME_HEADER_SIZE ->
      reassemble (S fuel) this buf srcAddr dstAddr srcPort dstPort perf k
      = Some (buf, run_ret tt))
  /\ (forall fuel buf k h,
      tryGetFrameHeader buf = Some h -> isMagical h = false ->
      reassemble (S fuel) this buf srcAddr dstAddr srcPort dstPort perf k
      = Some (buf, run_ret tt))
  /\ (forall fuel buf k h,
      tryGetFrameHeader buf = Some h -> qb_size buf < fh_size h ->
      reassemble (S fuel) this buf srcAddr dstAddr srcPort dstPort perf k
      = Some (buf, run_ret tt))
  /\ (forall fuel buf k h,
      tryGetFrameHeader buf = Some h -> isMagical h = true ->
      fh_size h <= qb_size buf ->
      let popped := qb_pop buf (fh_size h) in
      let r := _processFrame this h (fst popped)
                 srcAddr dstAddr srcPort dstPort (perf k) in
      Buffer_length (fst popped) = fh_size h
      /\ fst popped ++ snd popped = buf
      /\ reassemble (S fuel) this buf srcAddr dstAddr srcPort dstPort perf k
         = match outcome r with
           | Thrown e => Some (snd popped, r)
           | Returned _ =>
               match reassemble fuel this (snd popped)
                       srcAddr dstAddr srcPort dstPort perf (S k) with
               | Some (buf', r') =>
                   Some (buf', MkRun (emitted r ++ emitted r') (outcome r'))
               | None => None
               end
           end)
  /\ (forall frames rest k,
      Forall completeFrame frames ->
      stalls rest ->
      Forall (fun r => outcome r = Returned tt)
        (frameRuns this frames srcAddr dstAddr srcPort dstPort perf k) ->
      reassemble (S (length frames)) this (concat frames ++ rest)
        srcAddr dstAddr srcPort dstPort perf k
      = Some (rest,
              MkRun (concat (emitted <$> frameRuns this frames srcAddr dstAddr
                                           srcPort dstPort perf k))
                (Returned tt)))
  /\ (forall fuel done frame later rest k e,
      Forall completeFrame (done ++ [frame]) ->
      Forall (fun r => outcome r = Returned tt)
        (frameRuns this done srcAddr dstAddr srcPort dstPort perf k) ->
      outcome (_processFrame this
                 (parseFrameHeader (take (N.to_nat FRAME_HEADER_SIZE) frame)) frame
                 srcAddr dstAddr srcPort dstPort (perf (length done + k)%nat))
      = Thrown e ->
      reassemble (S (length done + fuel)) this
        (concat (done ++ frame :: later) ++ rest)
        srcAddr dstAddr srcPort dstPort perf k
      = Some (concat later ++ rest,
              MkRun (concat (emitted <$> frameRuns this (done ++ [frame]) srcAddr dstAddr
                                           srcPort dstPort perf k))
                (Thrown e))).
Proof.
  split; [|split; [|split; [|split; [|split]]]].
  - intros fuel buf k Hlt. apply reassemble_stalls. unfold stalls.
    rewrite tryGetFrameHeader_short by exact Hlt. exact I.
  - intros fuel buf k h Hh Hm. apply reassemble_stalls. unfold stalls.
    rewrite Hh. left; exact Hm.
  - intros fuel buf k h Hh Hlt. apply reassemble_stalls. unfold stalls.
    rewrite Hh. right; exact Hlt.
  - intros fuel buf k h Hh Hm Hle popped r. split; [|split].
    + subst popped. unfold qb_pop, Buffer_length, qb_size in *. simpl.
      rewrite length_take. unfold Buffer_length in Hle. lia.
    + subst popped. unfold qb_pop. simpl. apply take_drop.
    + apply (reassemble_turn fuel this buf srcAddr dstAddr srcPort dstPort perf k h Hh Hm Hle).
  - intros frames rest k Hframes Hrest Hruns.
    apply reassemble_drains; assumption.
  - intros fuel done frame later rest k e Hframes Hruns Hthrow.
    replace (concat (done ++ frame :: later) ++ rest)
      with (concat (done ++ [frame]) ++ (concat later ++ rest)).
    + apply reassemble_throws; assumption.
    + rewrite !concat_app. simpl. rewrite app_nil_r, <- !app_assoc. reflexivity.
Qed.

(** The handler ignores a packet that is not IPv4, not TCP or has no PSH
    flag. *)
Lemma onPacket_ignored fuel this payload d perf :
  eth_is_ipv4 d = false \/ ip_is_tcp d = false \/ Z.land (tcp_flags d) 8 = 0%Z ->
  onPacket fuel this payload d perf = Some (this, run_ret tt).
Proof.
  unfold onPacket. intros [-> | [-> | ->]]; simpl.
  - reflexivity.
  - destruct (eth_is_ipv4 d); reflexivity.
  - destruct (eth_is_ipv4 d), (ip_is_tcp d); reflexivity.
Qed.

(** Otherwise it pushes the TCP payload on the queue of the destination
    port and runs the loop on that queue. *)
Lemma onPacket_data fuel this payload d perf :
  eth_is_ipv4 d = true -> ip_is_tcp d = true -> Z.land (tcp_flags d) 8 <> 0%Z ->
  let datalen := (ip_totallen d - ip_hdrlen d - tcp_hdrlen d)%Z in
  let queue := default [] (_bufTable this !! tcp_dstport d) in
  let pushed :=
    qb_push queue (Buffer_slice_from payload (Z.of_nat (length payload) - datalen)) in
  onPacket fuel this payload d perf
  = match snd pushed with
    | Some e => Some (with_queue this (tcp_dstport d) (fst pushed), throw e)
    | None =>
        match reassemble fuel this (fst pushed) (ip_srcaddr d) (ip_dstaddr d)
                (tcp_srcport d) (tcp_dstport d) perf 0 with
        | Some (buf', r) => Some (with_queue this (tcp_dstport d) buf', r)
        | None => None
        end
    end.
Proof.
  intros Hip Htcp Hpsh. unfold onPacket. rewrite Hip, Htcp. simpl.
  apply Z.eqb_neq in Hpsh. rewrite Hpsh.
  unfold _getBuffer. destruct (_bufTable this !! tcp_dstport d); reflexivity.
Qed.

End Reassembler.

(** ** Loading and the ready event *)

Section Ready.

Context `{Constants, FrameProcessing, Memory, Pako, Processors}.
Context `{!Builtins, QueueBufferModule}.

Lemma steps_snoc (i : Instance) xs x : steps i (xs ++ [x]) = step (steps i xs) x.
Proof. unfold steps. rewrite foldl_app. reflexivity. Qed.

Lemma steps_app (i : Instance) xs ys : steps i (xs ++ ys) = steps (steps i xs) ys.
Proof. unfold steps. apply foldl_app. Qed.

Lemma step_loadingInvariant i x : loadingInvariant i -> loadingInvariant (step i x).
Proof.
  unfold loadingInvariant.
  destruct x as [name l | [lists|] | [constants|] | region];
    destruct (loading i) eqn:Hl; simpl; rewrite ?Hl; simpl; try tauto.
  - intros Hc. split; [exact Hc | eexists; reflexivity].
  - unfold readyCount; simpl. intros [Hc Hlists].
    rewrite List.filter_app, length_app. unfold readyCount in Hc. rewrite Hc.
    split; [reflexivity|]. split; [exact Hlists | eexists; reflexivity].
Qed.

Lemma steps_loadingInvariant region xs :
  loadingInvariant (steps (new_Instance region) xs).
Proof.
  induction xs as [|x xs IH] using rev_ind.
  - reflexivity.
  - rewrite steps_snoc. apply step_loadingInvariant, IH.
Qed.

(** Once both tables have loaded nothing is emitted or delivered by a
    subscription, a settled download or a region change. *)
Lemma step_after_loaded i x :
  loading i = Loaded ->
  loading (step i x) = Loaded
  /\ emissions (step i x) = emissions i
  /\ delivered (step i x) = delivered i.
Proof.
  intros Hl.
  destruct x as [name l | [lists|] | [constants|] | region];
    simpl; rewrite ?Hl; simpl; repeat split; assumption.
Qed.

Lemma steps_after_loaded ys : forall i,
  loading i = Loaded ->
  loading (steps i ys) = Loaded
  /\ emissions (steps i ys) = emissions i
  /\ delivered (steps i ys) = delivered i.
Proof.
  induction ys as [|y ys IH]; intros i Hl; [repeat split; assumption|].
  destruct (step_after_loaded i y Hl) as (Hl' & He & Hd).
  destruct (IH (step i y) Hl') as (Hl'' & He' & Hd').
  change (steps i (y :: ys)) with (steps (step i y) ys).
  repeat split; congruence.
Qed.

Lemma steps_keep_loadingConstants xs : forall i,
  loading i = LoadingConstants ->
  forallb (fun x => negb (isConstantsSettled x)) xs = true ->
  loading (steps i xs) = LoadingConstants.
Proof.
  induction xs as [|x xs IH]; intros i Hl Hxs; [exact Hl|].
  simpl in Hxs. apply andb_true_iff in Hxs. destruct Hxs as [Hx Hxs].
  change (steps i (x :: xs)) with (steps (step i x) xs).
  apply IH; [|exact Hxs].
  destruct x as [name l | [lists|] | r | region]; simpl; rewrite ?Hl;
    try reflexivity; discriminate.
Qed.


End Ready.

(** ** The opcode index, the IPC body and fragmented delivery *)

Section Further.

Context `{Constants, FrameProcessing, Memory, Pako, Processors}.
Context `{!Builtins, QueueBufferModule}.

Lemma opcodeTable_snoc entries entry :
  opcodeTable (entries ++ [entry])
  = <[oe_opcode entry := oe_name entry]> (opcodeTable entries).
Proof. unfold opcodeTable. rewrite foldl_app. reflexivity. Qed.

(** A lookup in the rebuilt table yields the name of the last entry listed
    for the opcode. *)
Lemma opcodeTable_lookup entries opcode :
  opcodeTable entries !! opcode = oe_name <$> lastEntry opcode entries.
Proof.
  unfold lastEntry.
  induction entries as [|entry entries IH] using rev_ind; [reflexivity|].
  rewrite opcodeTable_snoc, rev_unit. simpl.
  destruct (N.eqb_spec (oe_opcode entry) opcode) as [->|Hne].
  - apply lookup_insert_eq.
  - rewrite lookup_insert_ne by exact Hne. exact IH.
Qed.

(** X1, region switch: after [setRegion] with a region that the loaded lists
    carry, the opcode map is the merge of that region's server-zone and
    client-zone lists, a later entry for an opcode replacing an earlier
    one, and the name of the next IPC message is looked up in it. *)
Theorem setRegion_uses_region_lists this region lists ro :
  _opcodeLists this = Some lists ->
  regionList lists region = Some ro ->
  let entries := ServerZoneIpcType ro ++ ClientZoneIpcType ro in
  _opcodes (setRegion region this) = Some (opcodeTable entries)
  /\ (forall opcode,
        opcodeTable entries !! opcode = oe_name <$> lastEntry opcode entries)
  /\ (forall ih,
        messageName (setRegion region this) ih
        = lowerFirst (js_or (oe_name <$> lastEntry (ipc_type ih) entries) (js "unknown"))).
Proof.
  intros Hlists Hro entries.
  assert (Hops : _opcodes (setRegion region this) = Some (opcodeTable entries)).
  { unfold setRegion, updateOpcodesCache; simpl. rewrite Hlists.
    unfold regionList in Hro. rewrite Hro. reflexivity. }
  split; [exact Hops|]. split.
  - intros opcode. apply opcodeTable_lookup.
  - intros ih. unfold messageName. rewrite Hops, opcodeTable_lookup. reflexivity.
Qed.

(** X2: the [ipcData] of an IPC segment has the rounded size and holds the
    bytes that follow the IPC header in the frame body, as many as fit,
    whether or not they lie within the segment; the rest is zero. *)
Theorem ipcData_contents remainder offset sh ih data :
  ipcParts remainder offset sh = Returned (Some (ih, data)) ->
  let n := Z.to_nat (roundToNextPowerOf2
             (Z.of_N (sh_size sh) - Z.of_N SEG_HEADER_SIZE - Z.of_N IPC_HEADER_SIZE)) in
  let following :=
    Buffer_slice remainder (offset + SEG_HEADER_SIZE + IPC_HEADER_SIZE) in
  length data = n
  /\ data = take n following ++ zero_bytes (n - length following).
Proof.
  unfold ipcParts.
  destruct (sh_segmentType sh =? SegmentType_Ipc); [|discriminate].
  destruct (parseIpcHeader _) as [ih'|e]; [|discriminate].
  unfold Buffer_alloc.
  destruct (roundToNextPowerOf2 _ <? 0)%Z; [discriminate|].
  intros [= _ <-]. cbv zeta.
  set (n := Z.to_nat _).
  assert (Hsrc : Buffer_slice (Buffer_slice remainder (offset + SEG_HEADER_SIZE))
                   IPC_HEADER_SIZE
                 = Buffer_slice remainder (offset + SEG_HEADER_SIZE + IPC_HEADER_SIZE)).
  { unfold Buffer_slice. rewrite drop_drop. f_equal. lia. }
  unfold Buffer_copy. rewrite Hsrc.
  set (following := Buffer_slice remainder _).
  unfold zero_bytes. rewrite length_replicate, drop_replicate.
  destruct (Nat.le_gt_cases n (length following)) as [Hle|Hgt].
  - rewrite Nat.min_r by exact Hle.
    replace (n - n)%nat with 0%nat by lia.
    replace (n - length following)%nat with 0%nat by lia.
    split; [|reflexivity].
    rewrite length_app, length_take. simpl. lia.
  - rewrite Nat.min_l by lia.
    rewrite (take_ge following n) by lia. rewrite take_ge by lia.
    split; [|reflexivity].
    rewrite length_app, length_replicate. lia.
Qed.

(** A chunk that fits the remaining capacity is appended. *)
Lemma qb_push_fits (q bytes : Buffer) :
  Buffer_length (q ++ bytes) <= BUFFER_SIZE -> qb_push q bytes = (q ++ bytes, None).
Proof.
  unfold qb_push, qb_size, Buffer_length. rewrite length_app. intros Hfit.
  destruct (N.leb_spec (N.of_nat (length q) + N.of_nat (length bytes)) BUFFER_SIZE);
    [reflexivity | lia].
Qed.

(** The loop stalls on a proper prefix of a complete frame. *)
Lemma fragment_stalls (a b : Buffer) :
  completeFrame (a ++ b) -> b <> [] -> stalls a.
Proof.
  intros (Hlen & Hmagic & Hsize) Hb. unfold stalls.
  destruct (tryGetFrameHeader a) as [h|] eqn:Hh; [|exact I].
  unfold tryGetFrameHeader, qb_peek in Hh.
  destruct (qb_size a <? FRAME_HEADER_SIZE) eqn:Hshort; [discriminate|].
  apply N.ltb_ge in Hshort. unfold qb_size, Buffer_length in Hshort.
  simpl in Hh. injection Hh as <-.
  rewrite take_app_le in Hsize by lia.
  right. rewrite Hsize. unfold qb_size, Buffer_length. rewrite length_app.
  destruct b; [contradiction|]. simpl. lia.
Qed.

(** X3, fragmented delivery: when a complete magical frame that the queue
    can hold arrives on an empty queue in two pushes, the loop after the
    first push emits nothing and keeps the bytes, and the queue after the
    second push is the one a single push of the whole frame gives, so the
    events are the same; neither push raises anything. *)
Theorem fragmented_delivery fuel this srcAddr dstAddr srcPort dstPort perf k a b :
  completeFrame (a ++ b) ->
  b <> [] ->
  Buffer_length (a ++ b) <= BUFFER_SIZE ->
  reassemble (S fuel) this (fst (qb_push [] a)) srcAddr dstAddr srcPort dstPort perf k
  = Some (a, run_ret tt)
  /\ qb_push a b = qb_push [] (a ++ b)
  /\ qb_push [] a = (a, None)
  /\ qb_push a b = (a ++ b, None).
Proof.
  intros (Hlen & Hmagic & Hsize) Hb Hfit.
  assert (Hfirst : qb_push [] a = (a, None)).
  { apply (qb_push_fits [] a). simpl. unfold Buffer_length in *.
    rewrite length_app in Hfit. lia. }
  assert (Hsecond : qb_push a b = (a ++ b, None)) by (apply qb_push_fits; exact Hfit).
  assert (Hwhole : qb_push [] (a ++ b) = (a ++ b, None))
    by (apply (qb_push_fits [] (a ++ b)); exact Hfit).
  split; [|split; [congruence|split; assumption]].
  rewrite Hfirst. simpl fst. apply reassemble_stalls.
  apply (fragment_stalls a b); [repeat split; assumption | exact Hb].
Qed.

End Further.

(** ** More on the frame processor *)

Section FrameProcessorFurther.

Context `{Constants, FrameProcessing, Memory, Pako, Processors}.
Context `{!Builtins, QueueBufferModule}.

Implicit Types (this : CaptureInterface) (frameHeader : FrameHeader)
  (buf remainder : Buffer) (srcAddr dstAddr : string) (srcPort dstPort : N)
  (perf : Z * Z).

Lemma segmentsOf_app (evs evs' : list Event) :
  segmentsOf (evs ++ evs') = segmentsOf evs ++ segmentsOf evs'.
Proof. apply omap_app. Qed.

Lemma packetsOf_app (evs evs' : list Event) :
  packetsOf (evs ++ evs') = packetsOf evs ++ packetsOf evs'.
Proof. apply omap_app. Qed.

Lemma messagesOf_app (evs evs' : list Event) :
  messagesOf (evs ++ evs') = messagesOf evs ++ messagesOf evs'.
Proof. apply omap_app. Qed.

Lemma segmentsOf_loopEvents : forall names segs,
  length names = length segs -> segmentsOf (loopEvents names segs) = segs.
Proof.
  induction names as [|name names IH]; intros [|seg segs]; simpl; try discriminate.
  - reflexivity.
  - intros [= Hlen]. rewrite loopEvents_cons, segmentsOf_app, IH by exact Hlen.
    destruct name; reflexivity.
Qed.

Lemma packetsOf_loopEvents : forall names segs,
  packetsOf (loopEvents names segs) = [].
Proof.
  induction names as [|name names IH]; intros [|seg segs]; try reflexivity.
  rewrite loopEvents_cons, packetsOf_app, IH. destruct name; reflexivity.
Qed.

Lemma messagesOf_loopEvents this remainder : forall segs names offset m,
  iterations this remainder offset segs names ->
  In m (messagesOf (loopEvents names segs)) ->
  In m segs /\ is_Some (ipcHeader m).
Proof.
  induction segs as [|seg segs IH]; intros names offset m Hits;
    inversion Hits as [|? ? name ? names' Hit Hrest]; subst.
  - intros [].
  - rewrite loopEvents_cons, messagesOf_app. intros Hin.
    apply in_app_or in Hin. destruct Hin as [Hin | Hin].
    + destruct Hit; simpl in Hin; [contradiction|].
      destruct Hin as [<- | []]. split; [left; reflexivity | eexists; reflexivity].
    + destruct (IH _ _ _ Hrest Hin) as [Hm Hipc]. split; [right; exact Hm | exact Hipc].
Qed.

(** X4: the packet event lists the segments of the segment events.  When
    the processor returns on a frame it did not drop, it has emitted one
    packet event, whose segment list is the list of the segments carried by
    the segment events, in their order, [segmentCount] of them, under the
    frame header and the addresses it was given; otherwise it has emitted no
    packet event.  The segment of a message event is always one of them and
    has an IPC header. *)
Theorem packet_lists_emitted_segments
    this frameHeader buf srcAddr dstAddr srcPort dstPort perf :
  let r := _processFrame this frameHeader buf srcAddr dstAddr srcPort dstPort perf in
  match outcome r, decompress frameHeader (Buffer_slice buf FRAME_HEADER_SIZE) with
  | Returned _, Some _ =>
      packetsOf (emitted r)
      = [packetOf frameHeader srcAddr dstAddr srcPort dstPort (segmentsOf (emitted r))]
      /\ length (segmentsOf (emitted r)) = N.to_nat (fh_segmentCount frameHeader)
  | _, _ => packetsOf (emitted r) = []
  end
  /\ (forall m, In m (messagesOf (emitted r)) ->
        In m (segmentsOf (emitted r)) /\ is_Some (ipcHeader m)).
Proof.
  intros r. subst r.
  destruct (decompress frameHeader (Buffer_slice buf FRAME_HEADER_SIZE))
    as [remainder|] eqn:Hrem.
  - destruct (processFrame_not_dropped this frameHeader buf srcAddr dstAddr
                srcPort dstPort perf remainder Hrem)
      as (segs & names & Hits & [[Hlen Hrun] | [_ (e & _ & Hrun)]]);
      rewrite Hrun; simpl;
      pose proof (iterations_length _ _ _ _ _ Hits) as Hnames.
    + rewrite packetsOf_app, packetsOf_loopEvents, segmentsOf_app,
        segmentsOf_loopEvents by exact Hnames.
      simpl. rewrite app_nil_r. split; [split; [reflexivity | exact Hlen]|].
      intros m Hin. rewrite messagesOf_app in Hin. simpl in Hin.
      rewrite app_nil_r in Hin. eapply messagesOf_loopEvents; eassumption.
    + rewrite packetsOf_loopEvents, segmentsOf_loopEvents by exact Hnames.
      split; [reflexivity|]. intros m Hin.
      eapply messagesOf_loopEvents; eassumption.
  - unfold _processFrame. rewrite Hrem. simpl. split; [reflexivity | intros m []].
Qed.

Lemma iteration_without_constants this remainder offset seg name :
  _constants this = None ->
  iteration this remainder offset seg name -> parsedIpcData seg = None.
Proof.
  intros Hc [sh Hsh Hipc | sh ih data nm parsed Hsh Hipc Hname Hdec]; simpl;
    [reflexivity|].
  rewrite (unmarshal_without_constants _ _ _ Hc) in Hdec. congruence.
Qed.

Lemma iterations_without_constants this remainder : forall segs names offset,
  _constants this = None ->
  iterations this remainder offset segs names ->
  Forall (fun seg => parsedIpcData seg = None) segs.
Proof.
  induction segs as [|seg segs IH]; intros names offset Hc Hits;
    inversion Hits; subst; constructor.
  - eapply iteration_without_constants; eassumption.
  - eapply IH; eassumption.
Qed.

Lemma loopEvents_eventSegments (P : Segment -> Prop) : forall names segs,
  Forall P segs ->
  Forall (fun e => Forall P (eventSegments e)) (loopEvents names segs).
Proof.
  induction names as [|name names IH]; intros [|seg segs] Hall;
    try (apply Forall_nil_2).
  apply Forall_cons_1 in Hall. destruct Hall as [Hseg Hall].
  rewrite loopEvents_cons. apply Forall_app. split; [|apply IH; exact Hall].
  destruct name; simpl; repeat constructor; assumption.
Qed.

(** X5: while the constants are not loaded no decoder runs: every segment
    record that the frame processor hands to a listener, in a message, a
    segment or a packet event, has no [parsedIpcData]. *)
Theorem no_parsed_data_without_constants
    this frameHeader buf srcAddr dstAddr srcPort dstPort perf :
  _constants this = None ->
  Forall (fun e => Forall (fun seg => parsedIpcData seg = None) (eventSegments e))
    (emitted (_processFrame this frameHeader buf srcAddr dstAddr srcPort dstPort perf)).
Proof.
  intros Hc.
  destruct (decompress frameHeader (Buffer_slice buf FRAME_HEADER_SIZE))
    as [remainder|] eqn:Hrem.
  - destruct (processFrame_not_dropped this frameHeader buf srcAddr dstAddr
                srcPort dstPort perf remainder Hrem)
      as (segs & names & Hits & [[Hlen Hrun] | [_ (e & _ & Hrun)]]);
      rewrite Hrun; simpl;
      pose proof (iterations_without_constants _ _ _ _ _ Hc Hits) as Hsegs.
    + apply Forall_app. split; [apply loopEvents_eventSegments; exact Hsegs|].
      repeat constructor. exact Hsegs.
    + apply loopEvents_eventSegments; exact Hsegs.
  - unfold _processFrame. rewrite Hrem. constructor.
Qed.

Lemma toLowerCase_fixed (c : CodeUnit) :
  c < 128 -> ~ (65 <= c <= 90) -> toLowerCase c = [c].
Proof.
  intros Hascii Hupper. unfold toLowerCase.
  destruct (N.leb_spec 65 c); destruct (N.leb_spec c 90); simpl; try lia;
    destruct (N.ltb_spec c 128); (reflexivity || lia).
Qed.

(** An ASCII code unit is lowered to one ASCII code unit that is no
    upper-case letter and that lowering leaves as it is. *)
Lemma toLowerCase_ascii (c0 : CodeUnit) :
  c0 < 128 ->
  exists c,
    toLowerCase c0 = [c]
    /\ ~ (65 <= c <= 90)
    /\ (c = c0 \/ (65 <= c0 <= 90 /\ c = c0 + 32))
    /\ toLowerCase c = [c].
Proof.
  intros Hascii.
  destruct (N.leb_spec 65 c0) as [Hlo|Hlo];
    [destruct (N.leb_spec c0 90) as [Hhi|Hhi]|].
  - exists (c0 + 32). split; [|split; [lia|split; [right; lia|]]].
    + unfold toLowerCase.
      destruct (N.leb_spec 65 c0); destruct (N.leb_spec c0 90); simpl;
        (reflexivity || lia).
    + apply toLowerCase_fixed; lia.
  - exists c0. split; [|split; [lia|split; [left; reflexivity|]]];
      apply toLowerCase_fixed; lia.
  - exists c0. split; [|split; [lia|split; [left; reflexivity|]]];
      apply toLowerCase_fixed; lia.
Qed.

(** X6: the name of a message.  Without an opcode map the lookup throws a
    [TypeError]; with one it never throws.  The name is "unknown" when the
    map has no entry for the opcode or an empty one, and otherwise the
    entry with [toLowerCase] applied to its first code unit and to nothing
    else.  When that code unit is ASCII the name is as long as the entry,
    its first code unit is the entry's or, for a letter from A to Z, its
    lower-case letter, so never an upper-case ASCII letter, and lowering
    the name again leaves it as it is. *)
Theorem messageName_shape this ih :
  match _opcodes this with
  | None =>
      messageName this ih = Thrown (TypeError "Cannot read properties of undefined")
  | Some opcodes =>
      match opcodes !! ipc_type ih with
      | Some (c0 :: rest0) =>
          messageName this ih = Returned (toLowerCase c0 ++ rest0)
          /\ (c0 < 128 ->
              exists c,
                messageName this ih = Returned (c :: rest0)
                /\ ~ (65 <= c <= 90)
                /\ (c = c0 \/ (65 <= c0 <= 90 /\ c = c0 + 32))
                /\ lowerFirst (c :: rest0) = Returned (c :: rest0))
      | Some [] | None => messageName this ih = Returned (js "unknown")
      end
  end.
Proof.
  unfold messageName. destruct (_opcodes this) as [opcodes|]; [|reflexivity].
  destruct (opcodes !! ipc_type ih) as [[|c0 rest0]|]; simpl; try reflexivity.
  split; [reflexivity|]. intros Hascii.
  destruct (toLowerCase_ascii c0 Hascii) as (c & Hc & Hupper & Hfrom & Hfix).
  exists c. rewrite Hc. simpl. split; [reflexivity|]. split; [exact Hupper|].
  split; [exact Hfrom|]. rewrite Hfix. reflexivity.
Qed.

(** X7: a segment header that announces size 0 does not move the offset.
    When the iteration at an offset completes with such a segment, every
    remaining iteration reads the same bytes again: the loop emits the
    events of that segment once per remaining iteration and lists the
    segment as many times. *)
Theorem zero_size_segment_repeats this remainder offset seg name n acc :
  iteration this remainder offset seg name ->
  sh_size (header seg) = 0 ->
  segmentLoop this remainder n offset acc
  = MkRun (concat (replicate n (segmentEvents name seg)))
      (Returned (acc ++ replicate n seg)).
Proof.
  intros Hit Hzero. revert acc.
  induction n as [|n IH]; intros acc; simpl.
  - rewrite app_nil_r. reflexivity.
  - rewrite (iteration_runs _ _ _ _ _ Hit). unfold run_bind; simpl.
    rewrite Hzero, N.add_0_r, IH. simpl.
    rewrite <- app_assoc. reflexivity.
Qed.

(** X8: compressed transport changes nothing but the header.  A frame with
    [isCompressed] set whose body inflates to [body] has the outcome, the
    message and segment events and the packet segment list of any frame
    without the flag that carries [body] as it is. *)
Theorem compressed_like_uncompressed
    this frameHeader frameHeader' buf buf' srcAddr dstAddr srcPort dstPort perf body :
  fh_isCompressed frameHeader = true ->
  pako_inflate (Buffer_slice buf FRAME_HEADER_SIZE) = inr body ->
  fh_isCompressed frameHeader' = false ->
  Buffer_slice buf' FRAME_HEADER_SIZE = body ->
  fh_segmentCount frameHeader' = fh_segmentCount frameHeader ->
  let r := _processFrame this frameHeader buf srcAddr dstAddr srcPort dstPort perf in
  let r' := _processFrame this frameHeader' buf' srcAddr dstAddr srcPort dstPort perf in
  outcome r = outcome r'
  /\ List.filter isPerSegmentEvent (emitted r) = List.filter isPerSegmentEvent (emitted r')
  /\ (fun p => segments (childFrame p)) <$> packetsOf (emitted r)
     = (fun p => segments (childFrame p)) <$> packetsOf (emitted r').
Proof.
  intros Hc Hinf Hc' Hbody Hcount r r'. subst r r'.
  unfold _processFrame, decompress. rewrite Hc, Hinf, Hc', Hbody, Hcount.
  destruct (outcome (segmentLoop this body (N.to_nat (fh_segmentCount frameHeader)) 0 []))
    as [segs|e] eqn:Hloop.
  - unfold run_bind. rewrite Hloop. simpl.
    rewrite !List.filter_app, !packetsOf_app. simpl. repeat split.
    rewrite !fmap_app. reflexivity.
  - unfold run_bind. rewrite Hloop. simpl. repeat split.
Qed.

End FrameProcessorFurther.

(** ** More on the reassembler and the handler *)

Section HandlerFurther.

Context `{Constants, FrameProcessing, Memory, Pako, Processors}.
Context `{!Builtins, QueueBufferModule}.

Implicit Types (this : CaptureInterface) (buf rest : Buffer)
  (srcAddr dstAddr : string) (srcPort dstPort : N).

Lemma tryGetFrameHeader_extends buf more h :
  tryGetFrameHeader buf = Some h -> tryGetFrameHeader (buf ++ more) = Some h.
Proof.
  unfold tryGetFrameHeader, qb_peek, qb_size, Buffer_length.
  destruct (N.ltb_spec (N.of_nat (length buf)) FRAME_HEADER_SIZE); [discriminate|].
  simpl. intros [= <-]. rewrite length_app.
  destruct (N.ltb_spec (N.of_nat (length buf + length more)) FRAME_HEADER_SIZE); [lia|].
  simpl. rewrite take_app_le by lia. reflexivity.
Qed.

(** The frame processor reads the opcode map, the registry, the constants
    and the region of the instance, and nothing else of it. *)
Lemma processFrame_reads this this' frameHeader frame srcAddr dstAddr srcPort dstPort clock :
  _opcodes this' = _opcodes this ->
  _packetDefs this' = _packetDefs this ->
  _constants this' = _constants this ->
  _region this' = _region this ->
  _processFrame this' frameHeader frame srcAddr dstAddr srcPort dstPort clock
  = _processFrame this frameHeader frame srcAddr dstAddr srcPort dstPort clock.
Proof.
  intros Hops Hdefs Hconst Hreg.
  assert (Hseg : forall remainder offset,
            processSegment this' remainder offset = processSegment this remainder offset).
  { intros remainder offset. unfold processSegment, messageName, unmarshal.
    rewrite Hops, Hdefs, Hconst, Hreg. reflexivity. }
  assert (Hloop : forall remainder n offset acc,
            segmentLoop this' remainder n offset acc = segmentLoop this remainder n offset acc).
  { intros remainder n. induction n as [|n IH]; intros offset acc; simpl; [reflexivity|].
    rewrite Hseg. unfold run_bind.
    destruct (outcome (processSegment this remainder offset)); [|reflexivity].
    rewrite IH. reflexivity. }
  unfold _processFrame.
  destruct (decompress frameHeader _); [|reflexivity].
  rewrite Hloop. reflexivity.
Qed.

(** X9: a magical frame header that announces size 0 is never got past.
    The loop pops no byte for it, so, as long as processing the empty frame
    returns, the loop condition holds again on the same bytes: within no
    number of turns does the loop come to an end. *)
Theorem zero_size_header_never_leaves_loop
    this buf h srcAddr dstAddr srcPort dstPort perf :
  tryGetFrameHeader buf = Some h ->
  isMagical h = true ->
  fh_size h = 0 ->
  (forall k, outcome (_processFrame this h [] srcAddr dstAddr srcPort dstPort (perf k))
             = Returned tt) ->
  forall fuel k,
    reassemble fuel this buf srcAddr dstAddr srcPort dstPort perf k = None.
Proof.
  intros Hh Hm Hzero Hret. induction fuel as [|fuel IH]; intros k; [reflexivity|].
  rewrite (reassemble_turn _ _ _ _ _ _ _ _ _ _ Hh Hm) by (rewrite Hzero; lia).
  rewrite Hzero. cbv zeta. change (N.to_nat 0) with 0%nat.
  rewrite take_0, drop_0, Hret, IH. reflexivity.
Qed.

(** The loop pops a prefix of the queue and nothing else. *)
Lemma reassemble_pops_prefix this srcAddr dstAddr srcPort dstPort perf fuel :
  forall buf k buf' r,
    reassemble fuel this buf srcAddr dstAddr srcPort dstPort perf k = Some (buf', r) ->
    exists consumed, buf = consumed ++ buf'.
Proof.
  induction fuel as [|fuel IH]; intros buf k buf' r; simpl; [discriminate|].
  destruct (tryGetFrameHeader buf) as [h|];
    [|intros [= <- <-]; exists []; reflexivity].
  destruct (isMagical h && (fh_size h <=? qb_size buf));
    [|intros [= <- <-]; exists []; reflexivity].
  simpl.
  destruct (outcome (_processFrame this h (take (N.to_nat (fh_size h)) buf)
              srcAddr dstAddr srcPort dstPort (perf k))) as [[]|e].
  - destruct (reassemble fuel this (drop (N.to_nat (fh_size h)) buf)
                srcAddr dstAddr srcPort dstPort perf (S k))
      as [[buf'' r'']|] eqn:Hrec; [|discriminate].
    intros [= <- <-]. destruct (IH _ _ _ _ Hrec) as (consumed & Hc).
    exists (take (N.to_nat (fh_size h)) buf ++ consumed).
    rewrite <- app_assoc, <- Hc, take_drop. reflexivity.
  - intros [= <- <-]. exists (take (N.to_nat (fh_size h)) buf).
    rewrite take_drop. reflexivity.
Qed.

(** X10: what the loop leaves.  When the loop ends, the queue is what is
    left of the buffer after a prefix of it was popped, nothing else being
    dropped or reordered; and when it ends without an exception, the bytes
    left do not start with a complete magical frame. *)
Theorem reassemble_leaves_stalled_suffix
    this srcAddr dstAddr srcPort dstPort perf fuel :
  forall buf k buf' r,
    reassemble fuel this buf srcAddr dstAddr srcPort dstPort perf k = Some (buf', r) ->
    (exists consumed, buf = consumed ++ buf')
    /\ (outcome r = Returned tt -> stalls buf').
Proof.
  induction fuel as [|fuel IH]; intros buf k buf' r; simpl; [discriminate|].
  assert (Hstop : forall (P : Prop), P -> stalls buf ->
            Some (buf, @run_ret Event unit tt) = Some (buf', r) ->
            (exists consumed, buf = consumed ++ buf') /\ (outcome r = Returned tt -> stalls buf')).
  { intros P _ Hst [= <- <-]. split; [exists []; reflexivity | intros _; exact Hst]. }
  destruct (tryGetFrameHeader buf) as [h|] eqn:Hh.
  - destruct (isMagical h) eqn:Hm; simpl.
    + destruct (N.leb_spec (fh_size h) (qb_size buf)) as [Hle|Hgt].
      * destruct (outcome (_processFrame this h (take (N.to_nat (fh_size h)) buf)
                    srcAddr dstAddr srcPort dstPort (perf k))) as [[]|e] eqn:Hout.
        -- destruct (reassemble fuel this (drop (N.to_nat (fh_size h)) buf)
                       srcAddr dstAddr srcPort dstPort perf (S k))
             as [[buf'' r'']|] eqn:Hrec; [|discriminate].
           intros [= <- <-]. destruct (IH _ _ _ _ Hrec) as ((consumed & Hc) & Hst).
           split; [|exact Hst].
           exists (take (N.to_nat (fh_size h)) buf ++ consumed).
           rewrite <- app_assoc, <- Hc, take_drop. reflexivity.
        -- intros [= <- <-]. split.
           ++ exists (take (N.to_nat (fh_size h)) buf). rewrite take_drop. reflexivity.
           ++ rewrite Hout. discriminate.
      * apply (Hstop True I). unfold stalls. rewrite Hh. right. exact Hgt.
    + apply (Hstop True I). unfold stalls. rewrite Hh. left. exact Hm.
  - apply (Hstop True I). unfold stalls. rewrite Hh. exact I.
Qed.

(** X11: the handler works on one queue.  Whatever it is called with, it
    leaves the opcode lists, the constants, the registry, the region and the
    opcode map as they are, and the queue of every port but the packet's
    destination port; a packet that is not IPv4, not TCP or without the PSH
    flag changes nothing and emits nothing; for any other packet whose TCP
    payload the destination port's queue can hold, that queue afterwards is
    what is left of the old queue followed by the payload after a prefix
    was popped. *)
Theorem onPacket_touches_one_queue fuel this payload d perf this' r :
  onPacket fuel this payload d perf = Some (this', r) ->
  (_opcodeLists this' = _opcodeLists this /\ _constants this' = _constants this
   /\ _packetDefs this' = _packetDefs this /\ _region this' = _region this
   /\ _opcodes this' = _opcodes this)
  /\ (forall port, port <> tcp_dstport d ->
        _bufTable this' !! port = _bufTable this !! port)
  /\ (eth_is_ipv4 d = false \/ ip_is_tcp d = false \/ Z.land (tcp_flags d) 8 = 0%Z ->
      this' = this /\ r = run_ret tt)
  /\ (eth_is_ipv4 d = true -> ip_is_tcp d = true -> Z.land (tcp_flags d) 8 <> 0%Z ->
      Buffer_length (default [] (_bufTable this !! tcp_dstport d)
                     ++ childFramePayload payload d) <= BUFFER_SIZE ->
      exists consumed left,
        _bufTable this' !! tcp_dstport d = Some left
        /\ default [] (_bufTable this !! tcp_dstport d) ++ childFramePayload payload d
           = consumed ++ left).
Proof.
  intros Hrun.
  destruct (eth_is_ipv4 d) eqn:Hip; [destruct (ip_is_tcp d) eqn:Htcp;
    [destruct (Z.eqb_spec (Z.land (tcp_flags d) 8) 0) as [Hpsh|Hpsh]|]|].
  - rewrite onPacket_ignored in Hrun by (right; right; exact Hpsh).
    injection Hrun as <- <-. repeat split; try reflexivity; intros; congruence.
  - rewrite onPacket_data in Hrun by assumption. cbv zeta in Hrun.
    fold (childFramePayload payload d) in Hrun.
    destruct (qb_push (default [] (_bufTable this !! tcp_dstport d))
                (childFramePayload payload d)) as [pushed [e|]] eqn:Hpush;
      cbn [fst snd] in Hrun.
    + injection Hrun as <- <-. simpl.
      split; [repeat split|]. split; [|split].
      * intros port Hport. apply lookup_insert_ne. congruence.
      * intros [? | [? | ?]]; congruence.
      * intros _ _ _ Hfit. rewrite (qb_push_fits _ _ Hfit) in Hpush. discriminate.
    + destruct (reassemble fuel this _ _ _ _ _ perf 0) as [[buf' r']|] eqn:Hloop;
        [|discriminate].
      injection Hrun as <- <-. simpl.
      split; [repeat split|]. split; [|split].
      * intros port Hport. apply lookup_insert_ne. congruence.
      * intros [? | [? | ?]]; congruence.
      * intros _ _ _ Hfit. rewrite (qb_push_fits _ _ Hfit) in Hpush.
        injection Hpush as <-.
        destruct (reassemble_pops_prefix _ _ _ _ _ _ _ _ _ _ _ Hloop)
          as (consumed & Hc).
        exists consumed, buf'. split; [apply lookup_insert_eq | exact Hc].
  - rewrite onPacket_ignored in Hrun by (right; left; exact Htcp).
    injection Hrun as <- <-. repeat split; try reflexivity; intros; congruence.
  - rewrite onPacket_ignored in Hrun by (left; exact Hip).
    injection Hrun as <- <-. repeat split; try reflexivity; intros; congruence.
Qed.

Lemma onPacket_stalled fuel this p port q :
  dataFor port p ->
  _bufTable this !! port = Some q ->
  stalls (q ++ dataOf p) ->
  Buffer_length (q ++ dataOf p) <= BUFFER_SIZE ->
  exists this',
    onPacket (S fuel) this (cap_payload p) (cap_decoded p) (cap_perf p)
    = Some (this', run_ret tt)
    /\ _bufTable this' !! port = Some (q ++ dataOf p).
Proof.
  intros (Hip & Htcp & Hpsh & Hport) Hq Hst Hfit.
  rewrite onPacket_data by assumption. cbv zeta.
  fold (childFramePayload (cap_payload p) (cap_decoded p)). fold (dataOf p).
  rewrite Hport, Hq. simpl default. rewrite (qb_push_fits _ _ Hfit). cbn [fst snd].
  rewrite (reassemble_stalls _ _ _ _ _ _ _ _ _ Hst).
  eexists. split; [reflexivity|]. simpl. apply lookup_insert_eq.
Qed.

(** X12: no resynchronisation.  Once the queue of a port starts with a
    header that is not magical, no later data for that port is processed:
    a run of packets for the port whose payloads the queue can still hold
    emits nothing and only lengthens the queue, whatever frames the
    payloads carry. *)
Theorem nonmagical_head_blocks_flow fuel port h packets :
  isMagical h = false ->
  Forall (dataFor port) packets ->
  forall this q,
    _bufTable this !! port = Some q ->
    tryGetFrameHeader q = Some h ->
    Buffer_length (q ++ concat (dataOf <$> packets)) <= BUFFER_SIZE ->
    exists this',
      capture (S fuel) this packets = Some (this', run_ret tt)
      /\ _bufTable this' !! port = Some (q ++ concat (dataOf <$> packets)).
Proof.
  intros Hm Hall. induction Hall as [|p packets Hp _ IH]; intros this q Hq Hh Hfit.
  - exists this. split; [reflexivity|]. simpl. rewrite app_nil_r. exact Hq.
  - assert (Hst : stalls (q ++ dataOf p)).
    { unfold stalls. rewrite (tryGetFrameHeader_extends _ _ _ Hh). left; exact Hm. }
    simpl in Hfit. rewrite app_assoc in Hfit.
    assert (Hfit1 : Buffer_length (q ++ dataOf p) <= BUFFER_SIZE).
    { unfold Buffer_length in *. rewrite length_app in Hfit. lia. }
    destruct (onPacket_stalled fuel this p port q Hp Hq Hst Hfit1)
      as (this1 & Hrun & Hq1).
    destruct (IH this1 (q ++ dataOf p) Hq1 (tryGetFrameHeader_extends _ _ _ Hh) Hfit)
      as (this' & Hrest & Hq').
    exists this'. split.
    + cbn [capture]. rewrite Hrun. simpl. rewrite Hrest. reflexivity.
    + rewrite Hq'. simpl. rewrite <- app_assoc. reflexivity.
Qed.

(** X13: flows are keyed by the destination port alone.  When a complete
    magical frame that a queue can hold reaches a port with no queue yet in
    two packets, nothing is emitted for the first; on the second the frame
    is processed once, with the addresses and source port of the second
    packet whoever sent the first, and the port's queue is left empty. *)
Theorem split_frame_across_packets fuel this port p1 p2 :
  0 < FRAME_HEADER_SIZE ->
  _bufTable this !! port = None ->
  dataFor port p1 -> dataFor port p2 ->
  completeFrame (dataOf p1 ++ dataOf p2) ->
  dataOf p2 <> [] ->
  Buffer_length (dataOf p1 ++ dataOf p2) <= BUFFER_SIZE ->
  let frame := dataOf p1 ++ dataOf p2 in
  exists this',
    capture (S (S fuel)) this [p1; p2]
    = Some (this',
            _processFrame this
              (parseFrameHeader (take (N.to_nat FRAME_HEADER_SIZE) frame)) frame
              (ip_srcaddr (cap_decoded p2)) (ip_dstaddr (cap_decoded p2))
              (tcp_srcport (cap_decoded p2)) port (cap_perf p2 0%nat))
    /\ _bufTable this' !! port = Some [].
Proof.
  intros Hpos Hnone Hp1 Hp2 Hframe Hne Hfit frame. subst frame.
  set (frame := dataOf p1 ++ dataOf p2) in *.
  assert (Hpush1 : qb_push [] (dataOf p1) = (dataOf p1, None)).
  { apply (qb_push_fits [] (dataOf p1)). simpl. unfold Buffer_length in *.
    subst frame. rewrite length_app in Hfit. lia. }
  assert (Hpush2 : qb_push (dataOf p1) (dataOf p2) = (frame, None))
    by (apply qb_push_fits; exact Hfit).
  pose proof (reassemble_stalls (S fuel) this (dataOf p1)
                (ip_srcaddr (cap_decoded p1)) (ip_dstaddr (cap_decoded p1))
                (tcp_srcport (cap_decoded p1)) port (cap_perf p1) 0
                (fragment_stalls _ _ Hframe Hne)) as Hfirst.
  destruct Hp1 as (Hip1 & Htcp1 & Hpsh1 & Hport1).
  destruct Hp2 as (Hip2 & Htcp2 & Hpsh2 & Hport2).
  destruct Hframe as (Hlen & Hmagic & Hsize).
  cbn [capture].
  rewrite (onPacket_data _ _ _ _ _ Hip1 Htcp1 Hpsh1). cbv zeta.
  fold (childFramePayload (cap_payload p1) (cap_decoded p1)). fold (dataOf p1).
  pose proof (Hnone : @lookup N (list byte) (gmap N QueueBuffer) _ port
                         (_bufTable this) = None) as Hnone'.
  rewrite Hport1, Hnone'. simpl default. rewrite Hpush1. cbn [fst snd].
  rewrite Hfirst. simpl outcome.
  rewrite (onPacket_data _ _ _ _ _ Hip2 Htcp2 Hpsh2). cbv zeta.
  fold (childFramePayload (cap_payload p2) (cap_decoded p2)). fold (dataOf p2).
  rewrite Hport2. cbn [_bufTable with_queue]. rewrite lookup_insert_eq.
  simpl default. rewrite Hpush2. cbn [fst snd]. fold frame.
  assert (Hn : N.to_nat (fh_size (parseFrameHeader
                 (take (N.to_nat FRAME_HEADER_SIZE) frame))) = length frame)
    by (rewrite Hsize; unfold Buffer_length; lia).
  assert (Hh : tryGetFrameHeader frame
               = Some (parseFrameHeader (take (N.to_nat FRAME_HEADER_SIZE) frame))).
  { rewrite <- (app_nil_r frame) at 1. apply tryGetFrameHeader_frame. exact Hlen. }
  rewrite (reassemble_turn _ _ _ _ _ _ _ _ _ _ Hh Hmagic)
    by (rewrite Hsize; unfold qb_size; lia).
  cbv zeta. rewrite Hn, firstn_all, drop_all.
  assert (Hempty : forall k, reassemble (S fuel)
            (with_queue this port (dataOf p1)) []
            (ip_srcaddr (cap_decoded p2)) (ip_dstaddr (cap_decoded p2))
            (tcp_srcport (cap_decoded p2)) port (cap_perf p2) k
          = Some ([], run_ret tt)).
  { intros k. apply reassemble_stalls. unfold stalls.
    rewrite tryGetFrameHeader_short; [exact I|]. unfold qb_size, Buffer_length. simpl. lia. }
  match goal with
  | |- context [outcome (_processFrame ?t ?h ?f ?a ?b ?c ?d ?e)] =>
      rewrite (processFrame_reads this t h f a b c d e) by reflexivity;
      destruct (_processFrame this h f a b c d e) as [evs [[]|e0]] eqn:Hpf
  end; cbn [outcome emitted].
  - rewrite Hempty. simpl. rewrite !app_nil_r.
    eexists. split; [reflexivity|]. simpl. apply lookup_insert_eq.
  - eexists. split; [reflexivity|]. simpl. apply lookup_insert_eq.
Qed.

(** X14: the TCP payload is cut from the end of the captured bytes.  With
    [datalen] the IP total length less the two header lengths: for
    [0 <= datalen <= length] it is the last [datalen] bytes; for a negative
    [datalen] it is empty; and when [datalen] exceeds the captured length
    the start index is negative and counts from the end, so it is the last
    [datalen - length] bytes, or all of them if there are fewer. *)
Theorem childFramePayload_cut payload d :
  let datalen := (ip_totallen d - ip_hdrlen d - tcp_hdrlen d)%Z in
  let len := Z.of_nat (length payload) in
  (exists skipped, payload = skipped ++ childFramePayload payload d)
  /\ Z.of_nat (length (childFramePayload payload d))
     = (if (datalen <? 0)%Z then 0
        else if (datalen <=? len)%Z then datalen
        else Z.min (datalen - len) len)%Z.
Proof.
  intros datalen len. unfold childFramePayload, Buffer_slice_from.
  fold datalen. fold len.
  split.
  - destruct (len - datalen <? 0)%Z; eexists; symmetry; apply take_drop.
  - destruct (Z.ltb_spec (len - datalen) 0); rewrite length_drop;
      destruct (Z.ltb_spec datalen 0); destruct (Z.leb_spec datalen len);
      subst len; lia.
Qed.

End HandlerFurther.

(** ** More on loading, the opcode cache and the registry *)

Section InstanceFurther.

Context `{Constants, FrameProcessing, Memory, Pako, Processors}.
Context `{!Builtins, QueueBufferModule}.

(** Over a run the constants are in place exactly once both downloads have
    resolved, and nothing is delivered before. *)
Lemma steps_constants region xs :
  let i := steps (new_Instance region) xs in
  match loading i with
  | Loaded => is_Some (_constants (this_ i))
  | _ => _constants (this_ i) = None /\ delivered i = []
  end.
Proof.
  induction xs as [|x xs IH] using rev_ind; [split; reflexivity|].
  rewrite steps_snoc. cbv zeta in *.
  set (i := steps (new_Instance region) xs) in *.
  destruct x as [name l | [lists|] | [constants|] | r];
    destruct (loading i) eqn:Hl; simpl; rewrite ?Hl; simpl; try exact IH;
    try (eexists; reflexivity).
Qed.

(** X15: before "ready".  In every run of an instance, as long as "ready"
    has not been emitted the constants are not in place: [constants] is
    undefined and no segment of any frame processed then carries
    [parsedIpcData]; once it has been emitted the constants are in place. *)
Theorem no_parsed_data_before_ready region xs :
  let i := steps (new_Instance region) xs in
  (readyCount i = 0%nat ->
     _constants (this_ i) = None
     /\ get_constants (this_ i) = None
     /\ forall frameHeader buf srcAddr dstAddr srcPort dstPort perf,
          Forall (fun e => Forall (fun seg => parsedIpcData seg = None) (eventSegments e))
            (emitted (_processFrame (this_ i) frameHeader buf
                        srcAddr dstAddr srcPort dstPort perf)))
  /\ (readyCount i = 1%nat -> is_Some (_constants (this_ i))).
Proof.
  intros i.
  pose proof (steps_constants region xs) as Hc.
  pose proof (steps_loadingInvariant region xs) as Hinv.
  fold i in Hc, Hinv. unfold loadingInvariant in Hinv. cbv zeta in Hc.
  split.
  - intros Hzero.
    assert (Hnone : _constants (this_ i) = None)
      by (destruct (loading i); try tauto; destruct Hinv; lia).
    split; [exact Hnone|]. split.
    + unfold get_constants. rewrite Hnone. reflexivity.
    + intros frameHeader buf srcAddr dstAddr srcPort dstPort perf.
      destruct (decompress frameHeader (Buffer_slice buf FRAME_HEADER_SIZE))
        as [remainder|] eqn:Hrem.
      * destruct (processFrame_not_dropped (this_ i) frameHeader buf srcAddr dstAddr
                    srcPort dstPort perf remainder Hrem)
          as (segs & names & Hits & [[Hlen Hrun] | [_ (e & _ & Hrun)]]);
          rewrite Hrun; simpl;
          pose proof (iterations_without_constants _ _ _ _ _ Hnone Hits) as Hsegs.
        -- apply Forall_app. split; [apply loopEvents_eventSegments; exact Hsegs|].
           repeat constructor. exact Hsegs.
        -- apply loopEvents_eventSegments; exact Hsegs.
      * unfold _processFrame. rewrite Hrem. constructor.
  - intros Hone. destruct (loading i); try exact Hc; intuition lia.
Qed.

Lemma step_after_rejected i x :
  loading i = LoadRejected ->
  loading (step i x) = LoadRejected
  /\ emissions (step i x) = emissions i
  /\ _constants (this_ (step i x)) = _constants (this_ i).
Proof.
  intros Hl.
  destruct x as [name l | [lists|] | [constants|] | r];
    simpl; rewrite ?Hl; simpl; repeat split; assumption.
Qed.

(** X16: a failed download.  A download that is rejected ends the loading
    for good: whatever happens to the instance afterwards, "ready" is never
    emitted and the constants stay undefined.  When the opcode download is
    rejected the constants download does not even count. *)
Theorem rejected_download_never_ready region xs :
  let i := steps (new_Instance region) xs in
  (loading i = LoadingOpcodes -> loading (step i (OpcodesSettled None)) = LoadRejected)
  /\ (loading i = LoadingConstants ->
      loading (step i (ConstantsSettled None)) = LoadRejected)
  /\ (loading i = LoadRejected ->
      forall ys,
        loading (steps i ys) = LoadRejected
        /\ readyCount (steps i ys) = 0%nat
        /\ _constants (this_ (steps i ys)) = None).
Proof.
  intros i. split; [|split].
  - intros Hl. simpl. rewrite Hl. reflexivity.
  - intros Hl. simpl. rewrite Hl. reflexivity.
  - intros Hl ys.
    pose proof (steps_constants region xs) as Hc.
    pose proof (steps_loadingInvariant region xs) as Hinv.
    fold i in Hc, Hinv. unfold loadingInvariant in Hinv. cbv zeta in Hc.
    rewrite Hl in Hc, Hinv. destruct Hc as [Hc _].
    assert (Hall : loading (steps i ys) = LoadRejected
                   /\ emissions (steps i ys) = emissions i
                   /\ _constants (this_ (steps i ys)) = _constants (this_ i)).
    { clear Hc Hinv. revert Hl. generalize i. clear i.
      induction ys as [|y ys IH]; intros i Hl; [repeat split; assumption|].
      destruct (step_after_rejected i y Hl) as (Hl' & He & Hk).
      destruct (IH (step i y) Hl') as (Hl'' & He' & Hk').
      change (steps i (y :: ys)) with (steps (step i y) ys).
      repeat split; congruence. }
    destruct Hall as (Hl' & He & Hk). split; [exact Hl'|]. split.
    + unfold readyCount in *. rewrite He. exact Hinv.
    + rewrite Hk. exact Hc.
Qed.

Lemma step_cache_coherent i x :
  match _opcodeLists (this_ i) with
  | Some lists => _opcodes (this_ i) = regionTable lists (_region (this_ i))
  | None => _opcodes (this_ i) = Some ∅ \/ _opcodes (this_ i) = None
  end ->
  match _opcodeLists (this_ (step i x)) with
  | Some lists =>
      _opcodes (this_ (step i x)) = regionTable lists (_region (this_ (step i x)))
  | None => _opcodes (this_ (step i x)) = Some ∅ \/ _opcodes (this_ (step i x)) = None
  end.
Proof.
  unfold regionTable, regionList.
  destruct x as [name l | [lists|] | [constants|] | r];
    destruct (loading i) eqn:Hl; simpl; rewrite ?Hl; simpl; try tauto;
    intros Hinv;
    repeat match goal with
           | |- context [_opcodeLists ?t] => destruct (_opcodeLists t)
           | |- context [find ?f ?l] => destruct (find f l)
           end;
    simpl; first [reflexivity | right; reflexivity | exact Hinv].
Qed.

(** X17: the opcode cache is never stale.  In every run of an instance,
    once the opcode lists are loaded the opcode map is the one the lists
    give for the current region, undefined if they do not carry it,
    whatever the order of region changes and load; before that it is the
    empty map, or undefined once [setRegion] has been called. *)
Theorem opcode_cache_coherent region xs :
  let i := steps (new_Instance region) xs in
  match _opcodeLists (this_ i) with
  | Some lists => _opcodes (this_ i) = regionTable lists (_region (this_ i))
  | None => _opcodes (this_ i) = Some ∅ \/ _opcodes (this_ i) = None
  end.
Proof.
  induction xs as [|x xs IH] using rev_ind; [left; reflexivity|].
  rewrite steps_snoc. cbv zeta in *. apply step_cache_coherent. exact IH.
Qed.

(** X18: who is told.  When the constants resolve after the opcode lists
    did, "ready" is delivered to the listeners registered under it at that
    moment, once per registration and in registration order, and these are
    all the deliveries of the run, whatever happens afterwards. *)
Theorem ready_reaches_registered_listeners region pre constants post :
  let i := steps (new_Instance region) pre in
  loading i = LoadingConstants ->
  let j := steps i (ConstantsSettled (Some constants) :: post) in
  delivered j = (fun l => (l, EvReady)) <$> registered ready i.
Proof.
  intros i Hl j.
  pose proof (steps_constants region pre) as Hc. fold i in Hc. cbv zeta in Hc.
  rewrite Hl in Hc. destruct Hc as [_ Hd].
  subst j. change (steps i (ConstantsSettled (Some constants) :: post))
    with (steps (step i (ConstantsSettled (Some constants))) post).
  assert (Hloaded : loading (step i (ConstantsSettled (Some constants))) = Loaded)
    by (simpl; rewrite Hl; reflexivity).
  destruct (steps_after_loaded post _ Hloaded) as (_ & _ & ->).
  simpl. rewrite Hl. simpl. rewrite Hd. simpl.
  unfold recipients, registered. simpl.
  rewrite <- !list_fmap_compose. reflexivity.
Qed.

(** The names of the literal and the names of [Object.prototype] are all
    distinct. *)
Lemma memberNames_NoDup :
  NoDup (js <$> (processorNames ++ objectPrototypeMethods ++ ["__proto__"])).
Proof. apply (bool_decide_unpack _). vm_compute. exact I. Qed.

Lemma processorNames_NoDup : NoDup (js <$> processorNames).
Proof.
  pose proof memberNames_NoDup as Hnodup.
  rewrite fmap_app in Hnodup. apply NoDup_app in Hnodup. tauto.
Qed.

Lemma inherited_not_own name :
  In name (objectPrototypeMethods ++ ["__proto__"]) ->
  loadPacketProcessors !! js name = None.
Proof.
  intros Hin. apply registry_lookup_none.
  pose proof memberNames_NoDup as Hnodup.
  rewrite fmap_app in Hnodup. apply NoDup_app in Hnodup.
  destruct Hnodup as (_ & Hdisjoint & _).
  intros Hown. apply (Hdisjoint _ Hown).
  apply list_elem_of_fmap. exists name. split; [reflexivity|].
  apply list_elem_of_In. exact Hin.
Qed.

Lemma step_keeps_registry i x :
  _packetDefs (this_ (step i x)) = _packetDefs (this_ i).
Proof.
  destruct x as [name l | [lists|] | [constants|] | r];
    destruct (loading i) eqn:Hl; simpl; rewrite ?Hl; reflexivity.
Qed.

(** X19: what the lookup in the registry finds.  Under each of the 57
    names of the literal of [loadPacketProcessors] it finds the decoder
    imported under that name; under each of the eleven method names of
    [Object.prototype] it finds that method, and under "__proto__" an
    object that cannot be called; under any other name it finds nothing.
    The 69 names are distinct, and each is left as it is by the lowering of
    the first code unit, so each can be the name of a message.  Over any
    run of an instance the registry stays the one built at construction.
    So with the constants loaded a message named after a method of
    [Object.prototype] has that method called in place of a decoder, and
    one named "__proto__" throws a [TypeError]. *)
Theorem registry_members :
  (forall name, In name processorNames ->
     getMember loadPacketProcessors (js name) = Some (OwnDecoder (processor name)))
  /\ (forall name, In name objectPrototypeMethods ->
     getMember loadPacketProcessors (js name) = Some (InheritedMethod name))
  /\ getMember loadPacketProcessors (js "__proto__") = Some InheritedObject
  /\ (forall typeName,
     typeName ∉ js <$> processorNames -> typeName ∉ inheritedNames ->
     getMember loadPacketProcessors typeName = None)
  /\ length processorNames = 57%nat
  /\ NoDup (js <$> (processorNames ++ objectPrototypeMethods ++ ["__proto__"]))
  /\ Forall (fun name => lowerFirst (js name) = Returned (js name))
       (processorNames ++ objectPrototypeMethods ++ ["__proto__"])
  /\ (forall region xs,
        _packetDefs (this_ (steps (new_Instance region) xs)) = loadPacketProcessors)
  /\ (forall this data constants,
        _packetDefs this = loadPacketProcessors ->
        _constants this = Some constants ->
        (forall name, In name objectPrototypeMethods ->
           unmarshal this (js name) data
           = objectPrototypeCall name (new_BufferReader data) (constants !! _region this))
        /\ unmarshal this (js "__proto__") data
           = Thrown (TypeError "this._packetDefs[typeName] is not a function")).
Proof.
  assert (Hmethod : forall name, In name objectPrototypeMethods ->
            getMember loadPacketProcessors (js name) = Some (InheritedMethod name)).
  { intros name Hin. unfold getMember.
    rewrite inherited_not_own by (apply in_or_app; left; exact Hin).
    simpl in Hin.
    repeat (destruct Hin as [<- | Hin]; [vm_compute; reflexivity|]).
    destruct Hin. }
  assert (Hproto : getMember loadPacketProcessors (js "__proto__") = Some InheritedObject).
  { unfold getMember.
    rewrite inherited_not_own by (apply in_or_app; right; left; reflexivity).
    vm_compute. reflexivity. }
  split; [|split; [exact Hmethod|split; [exact Hproto|split; [|split; [reflexivity|
    split; [exact memberNames_NoDup|split; [|split]]]]]]].
  - intros name Hin. unfold getMember, loadPacketProcessors.
    erewrite elem_of_list_to_map_1; [reflexivity | |].
    + rewrite registry_keys_fmap. exact processorNames_NoDup.
    + apply list_elem_of_fmap. exists name. split; [reflexivity|].
      apply list_elem_of_In. exact Hin.
  - intros typeName Hown Hinherited.
    rewrite (getMember_not_inherited _ _ Hinherited).
    pose proof (registry_lookup_none _ Hown) as Hnone.
    unfold PacketProcessor in *. rewrite Hnone. reflexivity.
  - repeat constructor.
  - intros region xs. induction xs as [|x xs IH] using rev_ind; [reflexivity|].
    rewrite steps_snoc, step_keeps_registry. exact IH.
  - intros this data constants Hreg Hconst. split.
    + intros name Hin. unfold unmarshal.
      rewrite Hreg, (Hmethod name Hin), Hconst. reflexivity.
    + unfold unmarshal. rewrite Hreg, Hproto, Hconst. reflexivity.
Qed.

End InstanceFurther.

(** ** The decoders *)

Section DecodersVerified.

Context `{BufferReaderOps}.

Lemma decode_bind_returned {A B} (m : Decode A) (k : A -> Decode B) reader b reader' :
  decode_bind m k reader = Returned (b, reader') ->
  exists a r1, m reader = Returned (a, r1) /\ k a r1 = Returned (b, reader').
Proof.
  unfold decode_bind. destruct (m reader) as [[a r1]|e]; [|discriminate].
  intros Hk. exists a, r1. split; [reflexivity | exact Hk].
Qed.

Lemma decode_map_returned {A B} (f : A -> B) (m : Decode A) reader b reader' :
  decode_map f m reader = Returned (b, reader') ->
  exists a, m reader = Returned (a, reader') /\ b = f a.
Proof.
  unfold decode_map. intros Hm.
  apply decode_bind_returned in Hm. destruct Hm as (a & r1 & Hm & [= <- <-]).
  exists a. split; [exact Hm | reflexivity].
Qed.

Lemma objectLiteral_cons_returned name init rest reader vs reader' :
  objectLiteral ((name, init) :: rest) reader = Returned (vs, reader') ->
  exists v r1 vs',
    init reader = Returned (v, r1)
    /\ objectLiteral rest r1 = Returned (vs', reader')
    /\ vs = (name, v) :: vs'.
Proof.
  simpl. intros Hb.
  apply decode_bind_returned in Hb. destruct Hb as (v & r1 & Hinit & Hb).
  apply decode_bind_returned in Hb. destruct Hb as (vs' & r2 & Hrest & [= <- <-]).
  exists v, r1, vs'. repeat split; assumption.
Qed.

Lemma objectLiteral_app_returned : forall props props' reader vs reader',
  objectLiteral (props ++ props') reader = Returned (vs, reader') ->
  exists va r1 vb,
    objectLiteral props reader = Returned (va, r1)
    /\ objectLiteral props' r1 = Returned (vb, reader')
    /\ vs = va ++ vb.
Proof.
  induction props as [|[name init] props IH]; intros props' reader vs reader' Hrun.
  - exists [], reader, vs. repeat split. exact Hrun.
  - simpl app in Hrun. apply objectLiteral_cons_returned in Hrun.
    destruct Hrun as (v & r1 & vs' & Hinit & Hrest & ->).
    destruct (IH _ _ _ _ Hrest) as (va & r2 & vb & Ha & Hb & ->).
    exists ((name, v) :: va), r2, vb. split; [|split; [exact Hb | reflexivity]].
    simpl. unfold decode_bind. rewrite Hinit, Ha. reflexivity.
Qed.

Lemma objectLiteral_keys : forall props reader vs reader',
  objectLiteral props reader = Returned (vs, reader') ->
  fst <$> vs = fst <$> props.
Proof.
  induction props as [|[name init] props IH]; intros reader vs reader' Hrun.
  - injection Hrun as <- _. reflexivity.
  - apply objectLiteral_cons_returned in Hrun.
    destruct Hrun as (v & r1 & vs' & _ & Hrest & ->).
    simpl. f_equal. eapply IH; eassumption.
Qed.

Lemma arrayOf_returned (P : Value -> Prop) item :
  (forall reader v reader', item reader = Returned (v, reader') -> P v) ->
  forall n reader vs reader',
    arrayOf n item reader = Returned (vs, reader') ->
    length vs = n /\ Forall P vs.
Proof.
  intros Hitem. induction n as [|n IH]; intros reader vs reader' Hrun.
  - injection Hrun as <- _. split; [reflexivity | constructor].
  - simpl in Hrun.
    apply decode_bind_returned in Hrun. destruct Hrun as (v & r1 & Hv & Hrun).
    apply decode_bind_returned in Hrun. destruct Hrun as (vs' & r2 & Hvs & [= <- <-]).
    destruct (IH _ _ _ Hvs) as [Hlen Hall].
    split; [simpl; congruence|]. constructor; [eapply Hitem; eassumption | exact Hall].
Qed.

Lemma advancesBy_map {A B} (f : A -> B) w (m : Decode A) :
  advancesBy w m -> advancesBy w (decode_map f m).
Proof.
  intros Hm reader b reader' Hrun.
  apply decode_map_returned in Hrun. destruct Hrun as (a & Hrun & _).
  eapply Hm; eassumption.
Qed.

Lemma advancesBy_nil : advancesBy 0 (objectLiteral []).
Proof. intros reader vs reader' [= _ <-]. split; [reflexivity | lia]. Qed.

Lemma advancesBy_cons w w' total name init rest :
  advancesBy w init ->
  advancesBy w' (objectLiteral rest) ->
  w + w' = total ->
  advancesBy total (objectLiteral ((name, init) :: rest)).
Proof.
  intros Hinit Hrest <- reader vs reader' Hrun.
  apply objectLiteral_cons_returned in Hrun.
  destruct Hrun as (v & r1 & vs' & Hv & Hvs & _).
  destruct (Hinit _ _ _ Hv) as [Hb1 Ho1]. destruct (Hrest _ _ _ Hvs) as [Hb2 Ho2].
  split; [congruence | lia].
Qed.

Lemma advancesBy_app w w' props props' :
  advancesBy w (objectLiteral props) ->
  advancesBy w' (objectLiteral props') ->
  advancesBy (w + w') (objectLiteral (props ++ props')).
Proof.
  intros Ha Hb reader vs reader' Hrun.
  apply objectLiteral_app_returned in Hrun.
  destruct Hrun as (va & r1 & vb & Hva & Hvb & _).
  destruct (Ha _ _ _ Hva) as [Hb1 Ho1]. destruct (Hb _ _ _ Hvb) as [Hb2 Ho2].
  split; [congruence | lia].
Qed.

Lemma advancesBy_arrayOf w item : forall n,
  advancesBy w item -> advancesBy (N.of_nat n * w) (arrayOf n item).
Proof.
  intros n Hitem. induction n as [|n IH]; intros reader vs reader' Hrun.
  - injection Hrun as _ <-. split; [reflexivity | lia].
  - simpl in Hrun.
    apply decode_bind_returned in Hrun. destruct Hrun as (v & r1 & Hv & Hrun).
    apply decode_bind_returned in Hrun. destruct Hrun as (vs' & r2 & Hvs & [= _ <-]).
    destruct (Hitem _ _ _ Hv) as [Hb1 Ho1]. destruct (IH _ _ _ Hvs) as [Hb2 Ho2].
    split; [congruence | lia].
Qed.

Ltac advances :=
  lazymatch goal with
  | |- advancesBy _ (objectLiteral []) => apply advancesBy_nil
  | |- advancesBy _ (objectLiteral (_ :: _)) =>
      eapply advancesBy_cons; [advances | advances | try reflexivity]
  | |- advancesBy _ (decode_map _ (arrayOf _ _)) =>
      apply advancesBy_map; apply advancesBy_arrayOf; advances
  | |- advancesBy _ (decode_map _ _) => apply advancesBy_map; advances
  | |- advancesBy _ _ => first [eassumption | unfold uint8, uint16, uint32, uint64; advances]
  end.

(** The properties from [gimmickId] to [looks] take 376 bytes. *)
Lemma npcSpawn_fixed_part :
  fixedWidthReads ->
  advancesBy 376 (objectLiteral (npcSpawnHead ++ npcSpawnBody)).
Proof.
  intros (H8 & H16 & H32 & H64 & Hpos).
  change 376 with (148 + 228). apply advancesBy_app.
  - unfold npcSpawnHead. advances.
  - assert (Heffect : advancesBy 6 npcSpawnEffect)
      by (unfold npcSpawnEffect; apply advancesBy_map; advances).
    unfold npcSpawnBody.
    eapply advancesBy_cons;
      [apply advancesBy_map; apply (advancesBy_arrayOf 6 _ 30); exact Heffect
      | advances | reflexivity].
Qed.

Lemma find_skips_keys (name : string) (before after : list (string * Value)) :
  ~ In name (fst <$> before) ->
  find (fun p => String.eqb (fst p) name) (before ++ after)
  = find (fun p => String.eqb (fst p) name) after.
Proof.
  induction before as [|[k x] before IH]; simpl; intros Hnot; [reflexivity|].
  destruct (String.eqb_spec k name) as [->|Hne]; [tauto|]. apply IH. tauto.
Qed.

(** X20: where [npcSpawn] reads.  With a reader whose fixed-width methods
    move the cursor by their width, a call that returns has read the
    properties from [gimmickId] to [looks] from the 376 bytes at the cursor,
    [gimmickId] from the first four, and then [name] and [fcTag] as two
    strings starting at byte 376, and [bNpcPartSlot] as the byte after
    them; the object has its properties in the order of the source. *)
Theorem npcSpawn_layout reader v reader' :
  fixedWidthReads ->
  npcSpawn reader = Returned (v, reader') ->
  exists fixed r1 name r2 fcTag r3 slot,
    v = VObject (fixed ++ [("name", VString name); ("fcTag", VString fcTag);
                           ("bNpcPartSlot", VNumber slot)])
    /\ fst <$> fixed = fst <$> (npcSpawnHead ++ npcSpawnBody)
    /\ (exists n r0, nextUInt32 reader = Returned (n, r0)
                     /\ property "gimmickId" v = Some (VNumber n))
    /\ br_buf r1 = br_buf reader
    /\ br_offset r1 = br_offset reader + 376
    /\ nextString r1 = Returned (name, r2)
    /\ nextString r2 = Returned (fcTag, r3)
    /\ nextUInt8 r3 = Returned (slot, reader').
Proof.
  intros Hfixed Hrun. unfold npcSpawn in Hrun.
  apply decode_map_returned in Hrun. destruct Hrun as (vs & Hrun & ->).
  rewrite app_assoc in Hrun.
  apply objectLiteral_app_returned in Hrun.
  destruct Hrun as (fixed & r1 & tail & Hfix & Htail & ->).
  destruct (npcSpawn_fixed_part Hfixed _ _ _ Hfix) as [Hbuf Hoff].
  pose proof (objectLiteral_keys _ _ _ _ Hfix) as Hkeys.
  unfold npcSpawnTail in Htail.
  apply objectLiteral_cons_returned in Htail.
  destruct Htail as (vname & r2 & t1 & Hname & Htail & ->).
  apply decode_map_returned in Hname. destruct Hname as (name & Hname & ->).
  apply objectLiteral_cons_returned in Htail.
  destruct Htail as (vtag & r3 & t2 & Htag & Htail & ->).
  apply decode_map_returned in Htag. destruct Htag as (fcTag & Htag & ->).
  apply objectLiteral_cons_returned in Htail.
  destruct Htail as (vslot & r4 & t3 & Hslot & Hnil & ->).
  apply decode_map_returned in Hslot. destruct Hslot as (slot & Hslot & ->).
  injection Hnil as <- <-.
  exists fixed, r1, name, r2, fcTag, r3, slot.
  split; [reflexivity|]. split; [exact Hkeys|]. split.
  - unfold npcSpawnHead in Hfix. simpl app in Hfix.
    apply objectLiteral_cons_returned in Hfix.
    destruct Hfix as (vg & r0 & rest & Hg & _ & ->).
    apply decode_map_returned in Hg. destruct Hg as (n & Hg & ->).
    exists n, r0. split; [exact Hg | reflexivity].
  - repeat split; assumption.
Qed.

(** X21: the arrays of [npcSpawn].  Whatever the reader, a call that
    returns gives [effects] as an array of 30 objects, each with the
    properties [id] and [sourceActorId] in that order, [models] as an array
    of one element and [looks] as an array of 26. *)
Theorem npcSpawn_arrays reader v reader' :
  npcSpawn reader = Returned (v, reader') ->
  (exists effects,
      property "effects" v = Some (VArray effects)
      /\ length effects = 30%nat
      /\ Forall (isObjectOf ["id"; "sourceActorId"]) effects)
  /\ (exists models, property "models" v = Some (VArray models) /\ length models = 1%nat)
  /\ (exists looks, property "looks" v = Some (VArray looks) /\ length looks = 26%nat).
Proof.
  intros Hrun. unfold npcSpawn in Hrun.
  apply decode_map_returned in Hrun. destruct Hrun as (vs & Hrun & ->).
  apply objectLiteral_app_returned in Hrun.
  destruct Hrun as (head & r1 & rest & Hhead & Hrest & ->).
  pose proof (objectLiteral_keys _ _ _ _ Hhead) as Hkeys.
  unfold npcSpawnBody in Hrest. cbn [app] in Hrest.
  apply objectLiteral_cons_returned in Hrest.
  destruct Hrest as (veff & r2 & t1 & Heff & Hrest & ->).
  apply decode_map_returned in Heff. destruct Heff as (effects & Heff & ->).
  apply objectLiteral_cons_returned in Hrest. destruct Hrest as (v1 & r3 & t2 & _ & Hrest & ->).
  apply objectLiteral_cons_returned in Hrest. destruct Hrest as (v2 & r4 & t3 & _ & Hrest & ->).
  apply objectLiteral_cons_returned in Hrest. destruct Hrest as (v3 & r5 & t4 & _ & Hrest & ->).
  apply objectLiteral_cons_returned in Hrest.
  destruct Hrest as (vmod & r6 & t5 & Hmod & Hrest & ->).
  apply decode_map_returned in Hmod. destruct Hmod as (models & Hmod & ->).
  apply objectLiteral_cons_returned in Hrest.
  destruct Hrest as (vlooks & r7 & t6 & Hlooks & _ & ->).
  apply decode_map_returned in Hlooks. destruct Hlooks as (looks & Hlooks & ->).
  assert (Heffects : length effects = 30%nat
                     /\ Forall (isObjectOf ["id"; "sourceActorId"]) effects).
  { apply (arrayOf_returned _ npcSpawnEffect) with (reader := r1) (reader' := r2);
      [|exact Heff].
    intros r x r' Hx. unfold npcSpawnEffect in Hx.
    apply decode_map_returned in Hx. destruct Hx as (ps & Hps & ->).
    simpl. apply (objectLiteral_keys _ _ _ _ Hps). }
  destruct (arrayOf_returned (fun _ => True) uint32 (fun _ _ _ _ => I) _ _ _ _ Hmod)
    as [Hmodels _].
  destruct (arrayOf_returned (fun _ => True) uint8 (fun _ _ _ _ => I) _ _ _ _ Hlooks)
    as [Hlooks26 _].
  assert (Hnot : forall name, In name ["effects"; "models"; "looks"] ->
                   ~ In name (fst <$> head)).
  { intros name Hin. rewrite Hkeys. unfold npcSpawnHead. simpl.
    simpl in Hin. intuition (subst; discriminate). }
  split; [|split].
  - exists effects. split; [|exact Heffects]. unfold property.
    rewrite find_skips_keys by (apply Hnot; simpl; tauto). reflexivity.
  - exists models. split; [|exact Hmodels]. unfold property.
    rewrite find_skips_keys by (apply Hnot; simpl; tauto). reflexivity.
  - exists looks. split; [|exact Hlooks26]. unfold property.
    rewrite find_skips_keys by (apply Hnot; simpl; tauto). reflexivity.
Qed.

(** X22: [desynthResult] takes one 32-bit word per property.  A call that
    returns has made seven reads of a word in a row; [itemId] and
    [itemResultId] are the third and the fifth word modulo 1000000, so
    below 1000000; [itemHQ] and [itemResultHQ] tell whether the fourth and
    the sixth word exceed 1000000, the words after those of the ids, not
    the ids' own words; with fixed-width reads the call takes 28 bytes. *)
Theorem desynthResult_words reader v reader' :
  desynthResult reader = Returned (v, reader') ->
  exists w0 r1 w1 r2 w2 r3 w3 r4 w4 r5 w5 r6 w6,
    nextUInt32 reader = Returned (w0, r1)
    /\ nextUInt32 r1 = Returned (w1, r2)
    /\ nextUInt32 r2 = Returned (w2, r3)
    /\ nextUInt32 r3 = Returned (w3, r4)
    /\ nextUInt32 r4 = Returned (w4, r5)
    /\ nextUInt32 r5 = Returned (w5, r6)
    /\ nextUInt32 r6 = Returned (w6, reader')
    /\ v = VObject [("unknown0", VNumber w0); ("unknown1", VNumber w1);
                    ("itemId", VNumber (w2 mod 1000000));
                    ("itemHQ", VBoolean (1000000 <? w3));
                    ("itemResultId", VNumber (w4 mod 1000000));
                    ("itemResultHQ", VBoolean (1000000 <? w5));
                    ("itemResultQuantity", VNumber w6)]
    /\ w2 mod 1000000 < 1000000
    /\ w4 mod 1000000 < 1000000
    /\ (fixedWidthReads ->
        br_buf reader' = br_buf reader
        /\ br_offset r2 = br_offset reader + 8
        /\ br_offset r3 = br_offset reader + 12
        /\ br_offset reader' = br_offset reader + 28).
Proof.
  intros Hrun. unfold desynthResult in Hrun.
  apply decode_map_returned in Hrun. destruct Hrun as (vs & Hrun & ->).
  apply objectLiteral_cons_returned in Hrun. destruct Hrun as (v0 & r1 & t0 & H0' & Hrun & ->).
  apply objectLiteral_cons_returned in Hrun. destruct Hrun as (v1 & r2 & t1 & H1' & Hrun & ->).
  apply objectLiteral_cons_returned in Hrun. destruct Hrun as (v2 & r3 & t2 & H2' & Hrun & ->).
  apply objectLiteral_cons_returned in Hrun. destruct Hrun as (v3 & r4 & t3 & H3' & Hrun & ->).
  apply objectLiteral_cons_returned in Hrun. destruct Hrun as (v4 & r5 & t4 & H4' & Hrun & ->).
  apply objectLiteral_cons_returned in Hrun. destruct Hrun as (v5 & r6 & t5 & H5' & Hrun & ->).
  apply objectLiteral_cons_returned in Hrun. destruct Hrun as (v6 & r7 & t6 & H6' & Hrun & ->).
  injection Hrun as <- <-.
  apply decode_map_returned in H0'. destruct H0' as (w0 & Hw0 & ->).
  apply decode_map_returned in H1'. destruct H1' as (w1 & Hw1 & ->).
  apply decode_map_returned in H2'. destruct H2' as (w2 & Hw2 & ->).
  apply decode_map_returned in H3'. destruct H3' as (w3 & Hw3 & ->).
  apply decode_map_returned in H4'. destruct H4' as (w4 & Hw4 & ->).
  apply decode_map_returned in H5'. destruct H5' as (w5 & Hw5 & ->).
  apply decode_map_returned in H6'. destruct H6' as (w6 & Hw6 & ->).
  exists w0, r1, w1, r2, w2, r3, w3, r4, w4, r5, w5, r6, w6.
  repeat (split; [assumption || reflexivity|]).
  split; [apply N.mod_lt; discriminate|]. split; [apply N.mod_lt; discriminate|].
  intros (_ & _ & H32 & _).
  destruct (H32 _ _ _ Hw0) as [? ?]. destruct (H32 _ _ _ Hw1) as [? ?].
  destruct (H32 _ _ _ Hw2) as [? ?]. destruct (H32 _ _ _ Hw3) as [? ?].
  destruct (H32 _ _ _ Hw4) as [? ?]. destruct (H32 _ _ _ Hw5) as [? ?].
  destruct (H32 _ _ _ Hw6) as [? ?].
  repeat split; try congruence; lia.
Qed.

End DecodersVerified.

(** ** The model at work on the sample frames *)

Section Examples.

Import Wire.

(** C3 at [encryptedFrame]. *)
Lemma C3_witness :
  _processFrame withConstants (header_of encryptedFrame) encryptedFrame
    src dst 54992 61000 (0, 1)%Z
  = MkRun [] (Returned tt).
Proof.
  apply C3_encrypted_frame_dropped_silently; vm_compute; reflexivity.
Defined.

(** C1 as stated fails at [badDeflateFrame]: the compressed flag is set and
    inflate rejects the body with "invalid block type", yet the processor
    emits the packet and diagnostics events and no error event. *)
Lemma C1_counterexample :
  fh_isCompressed (header_of badDeflateFrame) = true
  /\ pako_inflate (Buffer_slice badDeflateFrame FRAME_HEADER_SIZE)
     = inl "invalid block type"
  /\ _processFrame withConstants (header_of badDeflateFrame) badDeflateFrame
       src dst 54992 61000 (0, 1)%Z
     = MkRun [EvPacket (packetOf (header_of badDeflateFrame) src dst 54992 61000 []);
              EvDiagnostics {| lastProcessingTimeMs := 1 |}]
         (Returned tt).
Proof. repeat split; vm_compute; reflexivity. Qed.

(** C1, as amended, at [badDeflateFrame]. *)
Lemma C1_witness :
  let body := Buffer_slice badDeflateFrame FRAME_HEADER_SIZE in
  let r := _processFrame withConstants (header_of badDeflateFrame) badDeflateFrame
             src dst 54992 61000 (0, 1)%Z in
  decompress (header_of badDeflateFrame) body = Some body
  /\ forallb (fun e => negb (isErrorEvent e)) (emitted r) = true.
Proof.
  intros body r.
  destruct (C1_inflate_failure_falls_through withConstants
              (header_of badDeflateFrame) badDeflateFrame src dst 54992 61000
              (0, 1)%Z "invalid block type") as (Hbody & Hnone & _).
  - vm_compute; reflexivity.
  - vm_compute; reflexivity.
  - discriminate.
  - split; [exact Hbody | exact Hnone].
Defined.

Lemma lateIpcFrame_first :
  iterations withForeignConstants (bodyOf lateIpcFrame) 0 [plainSegment] [None].
Proof.
  apply iterations_cons; [|apply iterations_nil].
  apply (iteration_plain withForeignConstants (bodyOf lateIpcFrame) 0 plainHeader);
    vm_compute; reflexivity.
Defined.

(** C2 as stated fails at [lateIpcFrame] when the constants have no entry
    for the region: the decoder of the second segment throws; the processor
    throws with it, having emitted the segment event of the first segment
    only: no error event, and no segment or packet event after it. *)
Lemma C2_counterexample :
  processor "inventoryModifyHandler" (new_BufferReader inventoryData) None
  = Thrown (TypeError "Cannot read properties of undefined")
  /\ _processFrame withForeignConstants (header_of lateIpcFrame) lateIpcFrame
       src dst 54992 61000 (0, 1)%Z
     = MkRun [EvSegment plainSegment]
         (Thrown (TypeError "Cannot read properties of undefined")).
Proof. split; vm_compute; reflexivity. Qed.

(** C2, as amended, at [lateIpcFrame]. *)
Lemma C2_witness :
  _processFrame withForeignConstants (header_of lateIpcFrame) lateIpcFrame
    src dst 54992 61000 (0, 1)%Z
  = MkRun (loopEvents [None] [plainSegment])
      (Thrown (TypeError "Cannot read properties of undefined"))
  /\ forallb isPerSegmentEvent (loopEvents [None] [plainSegment]) = true.
Proof.
  apply (C2_decoder_exception_propagates withForeignConstants
           (header_of lateIpcFrame) lateIpcFrame src dst 54992 61000 (0, 1)%Z
           (bodyOf lateIpcFrame) [plainSegment] [None]
           inventoryHeader inventoryIpcHeader inventoryData
           (js "inventoryModifyHandler") (processor "inventoryModifyHandler")
           {["CN" := [("InventoryOperationBaseValue", 500)]]}
           (TypeError "Cannot read properties of undefined")).
  - vm_compute; reflexivity.
  - exact lateIpcFrame_first.
  - vm_compute; lia.
  - vm_compute; reflexivity.
  - vm_compute; reflexivity.
  - vm_compute; reflexivity.
  - vm_compute; reflexivity.
  - reflexivity.
  - vm_compute; reflexivity.
Defined.

(** C4 at [mixedFrame]: message and segment of the IPC segment, segment of
    the second one, packet, diagnostics. *)
Lemma C4_witness :
  exists segs names,
    length segs = 2%nat
    /\ emitted (_processFrame withConstants (header_of mixedFrame) mixedFrame
                  src dst 54992 61000 (0, 1)%Z)
       = concat (zip_with segmentEvents names segs)
         ++ [EvPacket (packetOf (header_of mixedFrame) src dst 54992 61000 segs);
             EvDiagnostics (diagnosticsOf (0, 1)%Z)]
    /\ StronglySorted N.le (offsets 0 segs).
Proof.
  destruct (C4_event_order withConstants (header_of mixedFrame) mixedFrame
              src dst 54992 61000 (0, 1)%Z (bodyOf mixedFrame))
    as (segs & names & Hlen & Hev & _ & _ & Hsorted).
  - vm_compute; reflexivity.
  - vm_compute; reflexivity.
  - exists segs, names. split; [exact Hlen|]. split; [exact Hev | exact Hsorted].
Defined.


(** C6 as stated fails at [emptyNameFrame] with the lists [oddOpcodes]: the
    opcode map has an entry for opcode 102, the empty string, yet the
    message is named "unknown".  It fails at [npcSpawnFrame] with the
    opcode map undefined: the IPC segment gets no name and no message
    event, the lookup throws. *)
Lemma C6_counterexample :
  (exists opcodes,
      _opcodes withOddOpcodes = Some opcodes /\ opcodes !! 102 = Some [])
  /\ (exists seg,
        processSegment withOddOpcodes (bodyOf emptyNameFrame) 0
        = MkRun [EvMessage (js "unknown") seg; EvSegment seg] (Returned (seg, 35)))
  /\ ipcParts (bodyOf npcSpawnFrame) 0 spawnHeader
     = Returned (Some (spawnIpcHeader, spawnData))
  /\ _opcodes withoutRegion = None
  /\ messageName withoutRegion spawnIpcHeader
     = Thrown (TypeError "Cannot read properties of undefined")
  /\ processSegment withoutRegion (bodyOf npcSpawnFrame) 0
     = MkRun [] (Thrown (TypeError "Cannot read properties of undefined")).
Proof.
  split; [eexists; split; [reflexivity | vm_compute; reflexivity]|].
  split; [eexists; vm_compute; reflexivity|].
  repeat split; vm_compute; reflexivity.
Qed.

(** C6, as amended, at [npcSpawnFrame], where opcode 100 is NpcSpawn and
    the registry has a decoder, at [unknownOpcodeFrame], where opcode 999
    is in no list, and at [npcSpawnFrame] with the opcode map undefined. *)
Lemma C6_witness :
  messageName withConstants spawnIpcHeader = Returned (js "npcSpawn")
  /\ unmarshal withConstants (js "npcSpawn") spawnData
     = Returned (Some (Fields [("u32", 67305985)]))
  /\ processSegment withConstants (bodyOf unknownOpcodeFrame) 0
     = (let seg :=
          {| header := {| sh_size := 35; sh_sourceActor := 1; sh_targetActor := 2;
                          sh_segmentType := 3; sh_padding := 0; sh_operation := receive |};
             ipcHeader := Some {| ipc_reserved := 20; ipc_type := 999;
                                  ipc_serverId := 7; ipc_timestamp := 0 |};
             ipcData := Some [x0a; x0b; x0c; x00];
             parsedIpcData := None |} in
        MkRun [EvMessage (js "unknown") seg; EvSegment seg] (Returned (seg, 35)))
  /\ processSegment withoutRegion (bodyOf npcSpawnFrame) 0
     = MkRun [] (Thrown (TypeError "Cannot read properties of undefined")).
Proof.
  pose proof (C6_message_name withConstants (bodyOf npcSpawnFrame) 0
                spawnHeader spawnIpcHeader spawnData) as Hknown.
  pose proof (C6_message_name withConstants (bodyOf unknownOpcodeFrame) 0
                {| sh_size := 35; sh_sourceActor := 1; sh_targetActor := 2;
                   sh_segmentType := 3; sh_padding := 0; sh_operation := receive |}
                {| ipc_reserved := 20; ipc_type := 999; ipc_serverId := 7;
                   ipc_timestamp := 0 |}
                [x0a; x0b; x0c; x00]) as Hunknown.
  pose proof (C6_message_name withoutRegion (bodyOf npcSpawnFrame) 0
                spawnHeader spawnIpcHeader spawnData) as Hundefined.
  change (_opcodes withConstants) with (Some globalTable) in Hknown, Hunknown.
  change (_opcodes withoutRegion) with (@None (gmap N JsString)) in Hundefined.
  cbv zeta in Hknown, Hunknown, Hundefined.
  destruct Hknown as (Hname & _ & _ & Hdecoder);
    [vm_compute; reflexivity | vm_compute; reflexivity |].
  destruct Hunknown as (_ & _ & Hlit & _);
    [vm_compute; reflexivity | vm_compute; reflexivity |].
  destruct Hundefined as (_ & Hthrow);
    [vm_compute; reflexivity | vm_compute; reflexivity |].
  split; [rewrite Hname; vm_compute; reflexivity|]. split; [|split].
  - vm_compute in Hdecoder. exact Hdecoder.
  - apply Hlit; [left; vm_compute; reflexivity | reflexivity].
  - exact Hthrow.
Defined.

(** C7, as amended, at a queue holding [keepaliveFrame], [npcSpawnFrame]
    and the first two bytes of a third frame: both frames are processed in
    that order and the two bytes stay.  With the opcode map undefined and
    [keepaliveFrame] on both sides of [npcSpawnFrame], the first frame is
    processed, the second throws, and the third stays with the two bytes. *)
Lemma C7_witness :
  reassemble 3 withConstants (concat [keepaliveFrame; npcSpawnFrame] ++ [x52; x52])
    src dst 54992 61000 noClock 0
  = Some ([x52; x52],
          MkRun (concat (emitted <$> frameRuns withConstants
                                       [keepaliveFrame; npcSpawnFrame]
                                       src dst 54992 61000 noClock 0))
            (Returned tt))
  /\ reassemble 3 withoutRegion
       (concat ([keepaliveFrame] ++ npcSpawnFrame :: [keepaliveFrame]) ++ [x52; x52])
       src dst 54992 61000 noClock 0
     = Some (concat [keepaliveFrame] ++ [x52; x52],
             MkRun (concat (emitted <$> frameRuns withoutRegion
                                          ([keepaliveFrame] ++ [npcSpawnFrame])
                                          src dst 54992 61000 noClock 0))
               (Thrown (TypeError "Cannot read properties of undefined"))).
Proof.
  destruct (C7_reassembler_drains withConstants src dst 54992 61000 noClock)
    as (_ & _ & _ & _ & Hdrain & _).
  destruct (C7_reassembler_drains withoutRegion src dst 54992 61000 noClock)
    as (_ & _ & _ & _ & _ & Hthrow).
  split.
  - apply (Hdrain [keepaliveFrame; npcSpawnFrame] [x52; x52] 0%nat).
    + repeat constructor; vm_compute; congruence.
    + vm_compute. exact I.
    + repeat constructor; vm_compute; reflexivity.
  - apply (Hthrow 1%nat [keepaliveFrame] npcSpawnFrame [keepaliveFrame] [x52; x52] 0%nat
             (TypeError "Cannot read properties of undefined")).
    + repeat constructor; vm_compute; congruence.
    + repeat constructor; vm_compute; reflexivity.
    + vm_compute; reflexivity.
Defined.

(** C7 as stated fails at a queue holding [npcSpawnFrame] and then
    [keepaliveFrame], both complete and magical, when the opcode map is
    undefined: the processing of the first frame throws, the loop is left
    with the exception, and [keepaliveFrame] stays in the queue, however
    many turns the loop is given. *)
Lemma C7_counterexample :
  Forall completeFrame [npcSpawnFrame; keepaliveFrame]
  /\ reassemble 3 withoutRegion (concat [npcSpawnFrame; keepaliveFrame])
       src dst 54992 61000 noClock 0
     = Some (keepaliveFrame,
             MkRun [] (Thrown (TypeError "Cannot read properties of undefined")))
  /\ (forall fuel,
        reassemble (S fuel) withoutRegion (concat [npcSpawnFrame; keepaliveFrame])
          src dst 54992 61000 noClock 0
        = Some (keepaliveFrame,
                MkRun [] (Thrown (TypeError "Cannot read properties of undefined")))).
Proof.
  split; [repeat constructor; vm_compute; congruence|].
  split; [vm_compute; reflexivity|].
  intros fuel. vm_compute. reflexivity.
Qed.




(** C10 at a region that the loaded lists do not carry, and at an instance
    whose lists have not loaded. *)
Lemma C10_witness :
  _opcodes (setRegion "KR" withConstants) = None
  /\ processSegment (setRegion "KR" withConstants) (bodyOf npcSpawnFrame) 0
     = MkRun [] (Thrown (TypeError "Cannot read properties of undefined"))
  /\ _opcodes (setRegion "Global" (new_CaptureInterface "Global")) = None.
Proof.
  destruct (C10_missing_region_breaks_lookup withConstants "KR") as (Hnone & Hseg & _).
  - right. exists globalOpcodes. split; [reflexivity|].
    repeat constructor; discriminate.
  - split; [exact Hnone|]. split.
    + apply (Hseg (bodyOf npcSpawnFrame) 0 spawnHeader spawnIpcHeader spawnData);
        vm_compute; reflexivity.
    + apply (C10_missing_region_breaks_lookup (new_CaptureInterface "Global") "Global").
      left; reflexivity.
Defined.

(** The region switch at the sample lists: opcode 100 names "npcSpawn". *)
Lemma setRegion_witness :
  _opcodes (setRegion "Global" withConstants) = Some globalTable
  /\ messageName (setRegion "Global" withConstants) spawnIpcHeader
     = Returned (js "npcSpawn").
Proof.
  destruct (setRegion_uses_region_lists withConstants "Global" globalOpcodes
              {| ol_region := "Global"; ServerZoneIpcType := serverZone;
                 ClientZoneIpcType := clientZone |}) as (Hops & _ & Hname).
  - reflexivity.
  - reflexivity.
  - split; [exact Hops|]. rewrite Hname. vm_compute. reflexivity.
Defined.

(** The IPC body of the first segment of [mixedFrame]: five bytes of its
    own, then the first byte of the next segment, then zeros. *)
Lemma ipcData_witness :
  ipcParts (bodyOf mixedFrame) 0 inventoryHeader
  = Returned (Some (inventoryIpcHeader, [x01; x02; x03; x04; x05; x11; x00; x00]))
  /\ length [x01; x02; x03; x04; x05; x11; x00; x00] = 8%nat.
Proof.
  assert (Hparts : ipcParts (bodyOf mixedFrame) 0 inventoryHeader
                   = Returned (Some (inventoryIpcHeader,
                                     [x01; x02; x03; x04; x05; x11; x00; x00])))
    by (vm_compute; reflexivity).
  split; [exact Hparts|].
  exact (proj1 (ipcData_contents _ _ _ _ _ Hparts)).
Defined.

(** [npcSpawnFrame] delivered as its first byte and then the rest. *)
Lemma fragmented_delivery_witness :
  reassemble 1 withConstants (fst (qb_push [] (take 1 npcSpawnFrame)))
    src dst 54992 61000 noClock 0
  = Some (take 1 npcSpawnFrame, run_ret tt)
  /\ qb_push (take 1 npcSpawnFrame) (drop 1 npcSpawnFrame)
     = qb_push [] (take 1 npcSpawnFrame ++ drop 1 npcSpawnFrame)
  /\ qb_push [] (take 1 npcSpawnFrame) = (take 1 npcSpawnFrame, None)
  /\ qb_push (take 1 npcSpawnFrame) (drop 1 npcSpawnFrame)
     = (take 1 npcSpawnFrame ++ drop 1 npcSpawnFrame, None).
Proof.
  apply (fragmented_delivery 0 withConstants src dst 54992 61000 noClock 0
           (take 1 npcSpawnFrame) (drop 1 npcSpawnFrame)).
  - rewrite take_drop. repeat split; vm_compute; congruence.
  - vm_compute. discriminate.
  - vm_compute. discriminate.
Defined.

End Examples.

(** ** The further properties at work on the samples *)

Section FurtherExamples.

Import Wire.

Lemma pshPacket_data srcAddr srcPort data :
  dataFor 54992 (pshPacket srcAddr srcPort data)
  /\ dataOf (pshPacket srcAddr srcPort data) = data.
Proof.
  split.
  - repeat split; simpl; discriminate.
  - unfold dataOf, childFramePayload, Buffer_slice_from, pshPacket. simpl.
    match goal with |- context [Z.ltb ?a ?b] => destruct (Z.ltb_spec a b) as [Hlt|_] end;
      [lia|].
    match goal with |- drop ?k _ = _ => replace k with 54%nat by lia end.
    reflexivity.
Qed.

Lemma reader_fixedWidthReads : fixedWidthReads.
Proof.
  unfold fixedWidthReads, advancesBy. repeat apply conj;
    intros rd val rd' Hread; injection Hread as _ <-; simpl; split;
    reflexivity || lia.
Qed.

(** X5 at an instance whose constants have not loaded. *)
Lemma no_parsed_data_witness :
  Forall (fun e => Forall (fun seg => parsedIpcData seg = None) (eventSegments e))
    (emitted (_processFrame withOpcodes (header_of npcSpawnFrame) npcSpawnFrame
                src dst 54992 61000 (0, 1)%Z)).
Proof. apply no_parsed_data_without_constants. reflexivity. Defined.

(** X6 at the entry of opcode 104, which starts with U+00C9: the name
    starts with U+00E9. *)
Lemma messageName_witness :
  messageName withOddOpcodes
    {| ipc_reserved := 20; ipc_type := 104; ipc_serverId := 7; ipc_timestamp := 0 |}
  = Returned (233 :: js "clair").
Proof.
  pose proof (messageName_shape withOddOpcodes
                {| ipc_reserved := 20; ipc_type := 104; ipc_serverId := 7;
                   ipc_timestamp := 0 |}) as Hshape.
  vm_compute in Hshape. destruct Hshape as [Hname _].
  vm_compute. exact Hname.
Defined.

(** X7 at [emptySegmentFrame]: one header in the body, three segments. *)
Lemma zero_size_segment_witness :
  segmentLoop withConstants (bodyOf emptySegmentFrame) 3 0 []
  = MkRun [EvSegment emptySegment; EvSegment emptySegment; EvSegment emptySegment]
      (Returned [emptySegment; emptySegment; emptySegment]).
Proof.
  apply (zero_size_segment_repeats withConstants (bodyOf emptySegmentFrame) 0
           emptySegment None 3 []).
  - apply (iteration_plain withConstants (bodyOf emptySegmentFrame) 0 (header emptySegment));
      vm_compute; reflexivity.
  - reflexivity.
Defined.

(** X8 at [compressedSpawnFrame] and [npcSpawnFrame]. *)
Lemma compressed_witness :
  let r := _processFrame withConstants (header_of compressedSpawnFrame)
             compressedSpawnFrame src dst 54992 61000 (0, 1)%Z in
  let r' := _processFrame withConstants (header_of npcSpawnFrame) npcSpawnFrame
              src dst 54992 61000 (0, 1)%Z in
  outcome r = outcome r'
  /\ List.filter isPerSegmentEvent (emitted r) = List.filter isPerSegmentEvent (emitted r').
Proof.
  intros r r'.
  destruct (compressed_like_uncompressed withConstants
              (header_of compressedSpawnFrame) (header_of npcSpawnFrame)
              compressedSpawnFrame npcSpawnFrame src dst 54992 61000 (0, 1)%Z
              (bodyOf npcSpawnFrame)) as (Hout & Hevs & _).
  - vm_compute; reflexivity.
  - vm_compute; reflexivity.
  - vm_compute; reflexivity.
  - reflexivity.
  - vm_compute; reflexivity.
  - split; [exact Hout | exact Hevs].
Defined.

(** X9 at [zeroSizeHeader]: a thousand turns do not end the loop. *)
Lemma zero_size_header_witness :
  reassemble 1000 withConstants zeroSizeHeader src dst 54992 61000 noClock 0 = None.
Proof.
  apply (zero_size_header_never_leaves_loop withConstants zeroSizeHeader
           (header_of zeroSizeHeader) src dst 54992 61000 noClock).
  - vm_compute; reflexivity.
  - vm_compute; reflexivity.
  - vm_compute; reflexivity.
  - intros k. vm_compute; reflexivity.
Defined.

(** X10 at a queue holding [keepaliveFrame] and two more bytes. *)
Lemma reassemble_leaves_witness :
  (exists consumed, keepaliveFrame ++ [x52; x52] = consumed ++ [x52; x52])
  /\ stalls [x52; x52].
Proof.
  destruct (reassemble_leaves_stalled_suffix withConstants src dst 54992 61000
              noClock 2 (keepaliveFrame ++ [x52; x52]) 0 [x52; x52]
              (MkRun [EvPacket (packetOf (header_of keepaliveFrame) src dst 54992 61000 []);
                      EvDiagnostics (diagnosticsOf (0, 0)%Z)] (Returned tt)))
    as [Hsuffix Hst].
  - vm_compute; reflexivity.
  - split; [exact Hsuffix | apply Hst; reflexivity].
Defined.

(** X11 at a packet carrying [keepaliveFrame]. *)
Lemma onPacket_witness :
  match onPacket 2 withConstants (cap_payload (pshPacket src 61000 keepaliveFrame))
          (cap_decoded (pshPacket src 61000 keepaliveFrame)) noClock with
  | Some (this', r) =>
      _opcodes this' = _opcodes withConstants
      /\ _bufTable this' !! 55000 = _bufTable withConstants !! 55000
  | None => False
  end.
Proof.
  assert (Hret : match onPacket 2 withConstants
                         (cap_payload (pshPacket src 61000 keepaliveFrame))
                         (cap_decoded (pshPacket src 61000 keepaliveFrame)) noClock with
                 | Some _ => true
                 | None => false
                 end = true) by (vm_compute; reflexivity).
  destruct (onPacket 2 withConstants (cap_payload (pshPacket src 61000 keepaliveFrame))
              (cap_decoded (pshPacket src 61000 keepaliveFrame)) noClock)
    as [[this' r]|] eqn:Hrun.
  - destruct (onPacket_touches_one_queue _ _ _ _ _ _ _ Hrun)
      as ((_ & _ & _ & _ & Hops) & Hother & _).
    split; [exact Hops | apply Hother; discriminate].
  - discriminate Hret.
Defined.

(** X12 at [blocked]: two whole frames arrive and nothing is emitted. *)
Lemma nonmagical_head_witness :
  exists this',
    capture 1 blocked [pshPacket src 61000 keepaliveFrame;
                       pshPacket src 61000 npcSpawnFrame]
    = Some (this', run_ret tt)
    /\ _bufTable this' !! 54992
       = Some (strayBytes
                 ++ concat (dataOf <$> [pshPacket src 61000 keepaliveFrame;
                                        pshPacket src 61000 npcSpawnFrame])).
Proof.
  apply (nonmagical_head_blocks_flow 0 54992 (header_of strayBytes)).
  - vm_compute; reflexivity.
  - repeat constructor; simpl; discriminate.
  - reflexivity.
  - vm_compute; reflexivity.
  - rewrite !fmap_cons, !(proj2 (pshPacket_data _ _ _)). vm_compute. discriminate.
Defined.

(** X13 at [npcSpawnFrame], its first byte sent from one address and the
    rest from another. *)
Lemma split_frame_witness :
  exists this',
    capture 2 withConstants
      [pshPacket "198.51.100.9" 61001 (take 1 npcSpawnFrame);
       pshPacket src 61000 (drop 1 npcSpawnFrame)]
    = Some (this',
            _processFrame withConstants (header_of npcSpawnFrame) npcSpawnFrame
              src dst 61000 54992 (0, 0)%Z)
    /\ _bufTable this' !! 54992 = Some [].
Proof.
  destruct (split_frame_across_packets 0 withConstants 54992
              (pshPacket "198.51.100.9" 61001 (take 1 npcSpawnFrame))
              (pshPacket src 61000 (drop 1 npcSpawnFrame)))
    as (this' & Hrun & Hq).
  - reflexivity.
  - reflexivity.
  - apply pshPacket_data.
  - apply pshPacket_data.
  - rewrite !(proj2 (pshPacket_data _ _ _)), take_drop.
    repeat split; vm_compute; congruence.
  - rewrite (proj2 (pshPacket_data _ _ _)). vm_compute. discriminate.
  - rewrite !(proj2 (pshPacket_data _ _ _)), take_drop. vm_compute. discriminate.
  - exists this'. split; [|exact Hq]. rewrite Hrun.
    rewrite !(proj2 (pshPacket_data _ _ _)), take_drop. reflexivity.
Defined.

(** X18 on a run with listeners 1 and 3 under "ready", listener 2 under
    "packet", and listener 7 subscribing after the constants resolve. *)
Lemma ready_listeners_witness :
  delivered (steps (steps (new_Instance "Global")
                      [Subscribe ready 1; Subscribe packet 2; Subscribe ready 3;
                       OpcodesSettled (Some globalOpcodes)])
               [ConstantsSettled (Some ∅); Subscribe ready 7])
  = [(1%nat, EvReady); (3%nat, EvReady)].
Proof.
  rewrite (ready_reaches_registered_listeners "Global"
             [Subscribe ready 1; Subscribe packet 2; Subscribe ready 3;
              OpcodesSettled (Some globalOpcodes)] ∅ [Subscribe ready 7]).
  - vm_compute; reflexivity.
  - vm_compute; reflexivity.
Defined.

(** X19 at [toStringFrame] with the lists [oddOpcodes]: the entry
    "ToString" names the message "toString", under which the registry finds
    the method of [Object.prototype]; its result is stored in
    [parsedIpcData]. *)
Lemma registry_members_witness :
  unmarshal withOddOpcodes (js "toString") [x0a; x0b; x0c; x00]
  = Returned (Some (Text "[object Object]"))
  /\ exists seg,
       processSegment withOddOpcodes (bodyOf toStringFrame) 0
       = MkRun [EvMessage (js "toString") seg; EvSegment seg] (Returned (seg, 35))
       /\ parsedIpcData seg = Some (Text "[object Object]").
Proof.
  destruct registry_members as (_ & _ & _ & _ & _ & _ & _ & _ & Hcall).
  destruct (Hcall withOddOpcodes [x0a; x0b; x0c; x00]
              {["Global" := [("InventoryOperationBaseValue", 500)]]}
              eq_refl eq_refl) as [Hmethod _].
  split.
  - rewrite (Hmethod "toString") by (vm_compute; tauto). reflexivity.
  - eexists. split; vm_compute; reflexivity.
Defined.

(** X20 at a zero-padded body: [gimmickId] is 0. *)
Lemma npcSpawn_layout_witness :
  match npcSpawn (new_BufferReader zeroBody) with
  | Returned (v, _) => property "gimmickId" v = Some (VNumber 0)
  | Thrown _ => False
  end.
Proof.
  assert (Hret : match npcSpawn (new_BufferReader zeroBody) with
                 | Returned _ => true
                 | Thrown _ => false
                 end = true) by (vm_compute; reflexivity).
  destruct (npcSpawn (new_BufferReader zeroBody)) as [[v r']|e] eqn:Hrun.
  - destruct (npcSpawn_layout _ _ _ reader_fixedWidthReads Hrun)
      as (fixed & r1 & name & r2 & fcTag & r3 & slot & _ & _ & (n & r0 & Hn & Hg) & _).
    vm_compute in Hn. injection Hn as <- _. exact Hg.
  - discriminate Hret.
Defined.

(** X21 at a zero-padded body: [effects] has 30 elements. *)
Lemma npcSpawn_arrays_witness :
  match npcSpawn (new_BufferReader zeroBody) with
  | Returned (v, _) =>
      exists effects, property "effects" v = Some (VArray effects)
                      /\ length effects = 30%nat
  | Thrown _ => False
  end.
Proof.
  assert (Hret : match npcSpawn (new_BufferReader zeroBody) with
                 | Returned _ => true
                 | Thrown _ => false
                 end = true) by (vm_compute; reflexivity).
  destruct (npcSpawn (new_BufferReader zeroBody)) as [[v r']|e] eqn:Hrun.
  - destruct (npcSpawn_arrays _ _ _ Hrun) as ((effects & Heff & Hlen & _) & _).
    exists effects. split; [exact Heff | exact Hlen].
  - discriminate Hret.
Defined.

(** X22 at [desynthBody]: the words after the ids decide the quality. *)
Lemma desynthResult_witness :
  match desynthResult (new_BufferReader desynthBody) with
  | Returned (v, reader') =>
      property "itemId" v = Some (VNumber 31337)
      /\ property "itemHQ" v = Some (VBoolean false)
      /\ property "itemResultId" v = Some (VNumber 5057)
      /\ property "itemResultHQ" v = Some (VBoolean true)
      /\ br_offset reader' = 28
  | Thrown _ => False
  end.
Proof.
  assert (Hret : match desynthResult (new_BufferReader desynthBody) with
                 | Returned _ => true
                 | Thrown _ => false
                 end = true) by (vm_compute; reflexivity).
  destruct (desynthResult (new_BufferReader desynthBody)) as [[v r']|e] eqn:Hrun.
  - destruct (desynthResult_words _ _ _ Hrun)
      as (w0 & r1 & w1 & r2 & w2 & r3 & w3 & r4 & w4 & r5 & w5 & r6 & w6
          & H0 & H1 & H2 & H3 & H4 & H5 & H6 & -> & _ & _ & Hoff).
    destruct (Hoff reader_fixedWidthReads) as (_ & _ & _ & Hend).
    vm_compute in H0. injection H0 as <- <-.
    vm_compute in H1. injection H1 as <- <-.
    vm_compute in H2. injection H2 as <- <-.
    vm_compute in H3. injection H3 as <- <-.
    vm_compute in H4. injection H4 as <- <-.
    vm_compute in H5. injection H5 as <- <-.
    repeat split; try reflexivity. exact Hend.
  - discriminate Hret.
Defined.

End FurtherExamples.
